(** * Amazon S3 command of the AWS extension: object listing and size display

    A shallow embedding of [src/extensions/amazon-aws/src/s3.tsx]:
    - [fetchBucketObjects], the recursive marker-following listing;
    - [isPermanentRedirectError] and the part of the [S3BucketObjects] view
      that chooses between the region-mismatch view, the generic error view
      and the object list;
    - [humanFileSize], over IEEE 754 binary64 numbers.

    JavaScript numbers are modelled by the Standard Library's [spec_float]
    at precision 53 and maximal exponent 1024, strings by [string], the
    optional fields of the SDK's shapes by [option]. *)

From Stdlib Require Import ZArith List String Ascii Bool Lia.
From Stdlib Require Import SpecFloat DecimalString.
From Equations Require Import Equations.
Import ListNotations.
Local Open Scope string_scope.
Local Open Scope list_scope.
Local Open Scope Z_scope.

(** String concatenation, JavaScript's [+] on strings. *)
Infix "+++" := String.append (right associativity, at level 60).

(* ===================================================================== *)
(** * Data model                                                          *)
(* ===================================================================== *)

(** A JavaScript [number]. *)
Definition number := spec_float.

(** [_Object] of the SDK: the two fields the extension reads. *)
Record _Object := { Key : option string; Size : option number }.

(** [Bucket] of the SDK; [CreationDate] as milliseconds since the epoch. *)
Record Bucket := { Name : option string; CreationDate : option Z }.

(** Input of [ListObjectsCommand]. *)
Record ListObjectsCommand := { cmd_Bucket : string; cmd_Marker : option string }.

(** Output of [ListObjectsCommand]: the two fields that are destructured. *)
Record ListObjectsOutput :=
  { Contents : option (list _Object); NextMarker : option string }.

(** A thrown value.  [err_isS3ServiceException] is the answer of
    [err instanceof S3ServiceException]; the last fields are those the
    interface [S3PermanentRedirectError] declares, present or not at run
    time. *)
Record JsError := {
  err_isS3ServiceException : bool;
  err_name : string;
  err_message : string;
  err_Code : option string;
  err_Bucket : option string;
  err_Endpoint : option string }.

(** ** JavaScript coercions used by the source *)

(** Truthiness of an optional string: [undefined] and the empty string are
    falsy. *)
Definition truthy_string (s : option string) : bool :=
  match s with
  | Some EmptyString => false
  | Some _ => true
  | None => false
  end.

(** [s || ""] on an optional string. *)
Definition or_empty (s : option string) : string :=
  if truthy_string s then match s with Some v => v | None => "" end else "".

(** [Contents || []]: an array is always truthy. *)
Definition or_nil {A} (l : option (list A)) : list A :=
  match l with Some v => v | None => [] end.

(** An optional string inside a template literal. *)
Definition interpolate (s : option string) : string :=
  match s with Some v => v | None => "undefined" end.

(* ===================================================================== *)
(** * The listing calls                                                   *)
(* ===================================================================== *)

(** The calls sent so far, oldest first. *)
Definition Trace := list ListObjectsCommand.

(** The storage service as the extension sees it: the answer to a command,
    which may depend on the calls already made. *)
Definition S3Client := Trace -> ListObjectsCommand -> JsError + ListObjectsOutput.

(** How an [async] function ends: its promise is fulfilled, rejected, or
    still pending when the fuel of the model is used up. *)
Inductive completion (A : Type) : Type :=
| Fulfilled (a : A)
| Rejected (e : JsError)
| Pending.
Arguments Fulfilled {A} a.
Arguments Rejected {A} e.
Arguments Pending {A}.

(** An asynchronous computation threads the trace of calls. *)
Definition Async (A : Type) : Type := Trace -> Trace * completion A.

Definition ret {A} (a : A) : Async A := fun t => (t, Fulfilled a).

Definition bind {A B} (m : Async A) (f : A -> Async B) : Async B :=
  fun t =>
    match m t with
    | (t', Fulfilled a) => f a t'
    | (t', Rejected e) => (t', Rejected e)
    | (t', Pending) => (t', Pending)
    end.

Definition pending {A} : Async A := fun t => (t, Pending).

Notation "'await' x <- m ;; k" := (bind m (fun x => k))
  (at level 61, x name, m at next level, right associativity).

(** [await new S3Client({}).send(new ListObjectsCommand(cmd))] *)
Definition send (s3 : S3Client) (cmd : ListObjectsCommand) : Async ListObjectsOutput :=
  fun t =>
    (t ++ [cmd],
     match s3 t cmd with
     | inl e => Rejected e
     | inr out => Fulfilled out
     end).

(** [fetchBucketObjects(bucket, nextMarker?, objects = [])].  The optional
    and the defaulted parameter are [option]s; [fuel] bounds the depth of the
    recursion, which the source does not. *)
Fixpoint fetchBucketObjects (fuel : nat) (s3 : S3Client) (bucket : string)
    (nextMarker : option string) (objects : option (list _Object))
    : Async (list _Object) :=
  match fuel with
  | O => pending
  | S fuel' =>
      let objects := match objects with Some o => o | None => [] end in
      await out <- send s3 {| cmd_Bucket := bucket; cmd_Marker := nextMarker |} ;;
      let combinedObjects := objects ++ or_nil (Contents out) in
      if truthy_string (NextMarker out)
      then fetchBucketObjects fuel' s3 bucket (NextMarker out) (Some combinedObjects)
      else ret combinedObjects
  end.

(** What a settled listing hands to its caller. *)
Definition returned {A} (c : completion A) : option A :=
  match c with Fulfilled a => Some a | _ => None end.

(** [isPermanentRedirectError(err)], [err] possibly [undefined]. *)
Definition isPermanentRedirectError (err : option JsError) : bool :=
  match err with
  | Some e => err_isS3ServiceException e && String.eqb (err_name e) "PermanentRedirect"
  | None => false
  end.

(* ===================================================================== *)
(** * JavaScript numbers                                                  *)
(* ===================================================================== *)

(** binary64 *)
Definition prec : Z := 53.
Definition emax : Z := 1024.

(** A numeric literal with an integer value. *)
Definition of_Z (z : Z) : number := binary_normalize prec emax z 0 false.

(** The numbers of JavaScript are the well-formed binary64 values. *)
Definition is_number (x : number) : bool := valid_binary prec emax x.

Definition div (x y : number) : number := SFdiv prec emax x y.
Definition mul (x y : number) : number := SFmul prec emax x y.
Definition lt (x y : number) : bool := SFltb x y.
Definition ge (x y : number) : bool := SFleb y x.

(** [Math.abs] *)
Definition Math_abs (x : number) : number := SFabs x.

(** [Math.round]: the closest integer, a tie going towards plus infinity;
    the sign of a zero result is that of the argument. *)
Definition Math_round (x : number) : number :=
  match x with
  | S754_finite s m e =>
      if 0 <=? e then x
      else
        match (2 * cond_Zopp s (Zpos m) + 2 ^ (- e)) / 2 ^ (1 - e) with
        | 0 => S754_zero s
        | n => of_Z n
        end
  | _ => x
  end.

(** [x || 0] on an optional number: [undefined], the zeros and NaN are
    falsy. *)
Definition or_zero (x : option number) : number :=
  match x with
  | Some (S754_finite s m e) => S754_finite s m e
  | Some (S754_infinity s) => S754_infinity s
  | _ => of_Z 0
  end.

(** ** Number to string *)

(** The decimal digits of a natural number, without leading zeroes. *)
Definition digits (z : Z) : string := NilZero.string_of_uint (N.to_uint (Z.to_N z)).

Definition zeros (n : Z) : string := String.concat "" (repeat "0" (Z.to_nat n)).

Definition slice (from len : Z) (s : string) : string :=
  substring (Z.to_nat from) (Z.to_nat len) s.

(** Comparison of [a * 10^p] with [b * 2^q], exactly. *)
Definition compare_scaled (a p b q : Z) : comparison :=
  (a * 10 ^ Z.max p 0 * 2 ^ Z.max (- q) 0) ?= (b * 2 ^ Z.max q 0 * 10 ^ Z.max (- p) 0).

(** [floor (m * 2^e / 10^p)] *)
Definition floor_scaled (m : positive) (e p : Z) : Z :=
  (Zpos m * 2 ^ Z.max e 0 * 10 ^ Z.max (- p) 0) / (2 ^ Z.max (- e) 0 * 10 ^ Z.max p 0).

(** The [n] with [10^(n-1) <= m * 2^e < 10^n].  Below one the digits of the
    inverse are counted: no negative power of ten is a binary fraction. *)
Definition decimal_exponent (m : positive) (e : Z) : Z :=
  let num := Zpos m * 2 ^ Z.max e 0 in
  let den := 2 ^ Z.max (- e) 0 in
  if den <=? num
  then Z.of_nat (String.length (digits (num / den)))
  else 1 - Z.of_nat (String.length (digits (den / num))).

(** Does [s * 10^p] round to the binary64 number [m * 2^e]?  The number is
    [4m] in units of [2^(e-2)]; the reals that round to it reach half way to
    its neighbours, the lower one being closer at the bottom of a binade,
    and the ends are included when [m] is even. *)
Definition rounds_to (m : positive) (e : Z) (s p : Z) : bool :=
  let below :=
    if (Zpos m =? 2 ^ (prec - 1)) && (SpecFloat.emin prec emax <? e) then 1 else 2 in
  let lower :=
    match compare_scaled s p (4 * Zpos m - below) (e - 2) with
    | Gt => true | Eq => Z.even (Zpos m) | Lt => false
    end in
  let upper :=
    match compare_scaled s p (4 * Zpos m + 2) (e - 2) with
    | Lt => true | Eq => Z.even (Zpos m) | Gt => false
    end in
  lower && upper.

(** The [k]-digit integer [s], if any, with [s * 10^(n-k)] rounding to
    [m * 2^e]; of two, the one closest to the number, then the even one. *)
Definition candidate (m : positive) (e n k : Z) : option Z :=
  let p := n - k in
  let s := floor_scaled m e p in
  match rounds_to m e s p, rounds_to m e (s + 1) p with
  | true, true =>
      match compare_scaled (2 * s + 1) p (Zpos m) (e + 1) with
      | Gt => Some s
      | Lt => Some (s + 1)
      | Eq => Some (if Z.even s then s else s + 1)
      end
  | true, false => Some s
  | false, true => Some (s + 1)
  | false, false => None
  end.

(** The least number of digits [k], from [k] on, with its [s]: one unit of
    fuel per number of digits tried.  Without fuel the digits are cut. *)
Fixpoint shortest (fuel : nat) (m : positive) (e n k : Z) : Z * Z :=
  match fuel with
  | O => (floor_scaled m e (n - k), k)
  | S fuel' =>
      match candidate m e n k with
      | Some s => (s, k)
      | None => shortest fuel' m e n (k + 1)
      end
  end.

(** [Number::toString] of the positive finite number [m * 2^e]: steps 5 to
    10 of the specification of the language.  One to seventeen digits are
    tried: seventeen digits identify every binary64 number. *)
Definition toString_positive (m : positive) (e : Z) : string :=
  let n0 := decimal_exponent m e in
  let '(s0, k) := shortest 17 m e n0 1 in
  let '(ds, n) :=
    if s0 =? 10 ^ k then ("1", n0 + 1) else (digits s0, n0) in
  let k := Z.of_nat (String.length ds) in
  if (k <=? n) && (n <=? 21) then ds +++ zeros (n - k)
   else if (0 <? n) && (n <=? 21) then slice 0 n ds +++ "." +++ slice n (k - n) ds
   else if (-6 <? n) && (n <=? 0) then "0." +++ zeros (- n) +++ ds
   else
     let sign := if n - 1 <? 0 then "-" else "+" in
     if k =? 1 then ds +++ "e" +++ sign +++ digits (Z.abs (n - 1))
     else slice 0 1 ds +++ "." +++ slice 1 (k - 1) ds +++ "e" +++ sign +++ digits (Z.abs (n - 1)).

(** [Number::toString], radix 10: what [bytes + " B"] applies to [bytes]. *)
Definition Number_toString (x : number) : string :=
  match x with
  | S754_nan => "NaN"
  | S754_zero _ => "0"
  | S754_infinity s => if s then "-Infinity" else "Infinity"
  | S754_finite s m e => (if s then "-" else "") +++ toString_positive m e
  end.

(** [Number.prototype.toFixed] without argument, that is with no fraction
    digits: the closest integer, the larger of two, in decimal; the
    numbers from [10^21] on as [Number::toString] writes them. *)
Definition toFixed (x : number) : string :=
  match x with
  | S754_finite s m e =>
      let sign := if s then "-" else "" in
      match compare_scaled 1 21 (Zpos m) e with
      | Gt =>
          let num := Zpos m * 2 ^ Z.max e 0 in
          let den := 2 ^ Z.max (- e) 0 in
          sign +++ digits ((2 * num + den) / (2 * den))
      | _ => sign +++ toString_positive m e
      end
  | _ => Number_toString x
  end.

(* ===================================================================== *)
(** * The size formatter                                                  *)
(* ===================================================================== *)

Definition threshold : number := of_Z 1000.
Definition units : list string := ["kB"; "MB"; "GB"; "TB"; "PB"; "EB"; "ZB"; "YB"].
Definition r : number := of_Z 10.

(** [units[u]] inside a string concatenation. *)
Definition index (l : list string) (u : Z) : string :=
  interpolate (if u <? 0 then None else nth_error l (Z.to_nat u)).

(** The condition of the [do ... while], on the values the body leaves. *)
Definition again (bytes : number) (u : Z) : bool :=
  ge (div (Math_round (mul (Math_abs bytes) r)) r) threshold
  && (u <? Z.of_nat (List.length units) - 1).

(** A value together with the equation that names it. *)
Definition inspect {A} (a : A) : {b : A | a = b} := exist _ a eq_refl.

(** How many more times the guard on [u] lets the body run. *)
Definition steps_left (u : Z) : nat :=
  Z.to_nat (Z.of_nat (List.length units) - 1 - u).

(** The [do ... while] loop from the state [(bytes, u)]: the body runs, then
    the condition decides.  It is the guard on [u] that makes it stop. *)
Equations? do_while (bytes : number) (u : Z) : number * Z
  by wf (steps_left u) Nat.lt :=
  do_while bytes u with inspect (again (div bytes threshold) (u + 1)) := {
    | exist _ true _ => do_while (div bytes threshold) (u + 1)
    | exist _ false _ => (div bytes threshold, u + 1) }.
Proof.
  unfold again in e. apply andb_prop in e. destruct e as [_ e].
  apply Z.ltb_lt in e. unfold steps_left. lia.
Qed.

(** [humanFileSize(bytes)] *)
Definition humanFileSize (bytes : number) : string :=
  if lt (Math_abs bytes) threshold then Number_toString bytes +++ " B"
  else
    let '(bytes, u) := do_while bytes (-1) in
    toFixed bytes +++ " " +++ index units u.

(* ===================================================================== *)
(** * The view of a bucket's objects                                      *)
(* ===================================================================== *)

Inductive Icon := Icon_Globe | Icon_Warning | Icon_Document.

(** The actions of an action panel.  The download handler is kept as the
    bucket and key it will ask the service for. *)
Inductive Action :=
| Action_OpenInBrowser (title url : string)
| Action_SubmitForm (title bucket key : string)
| Action_CopyToClipboard (title content : string).

Record EmptyView := {
  ev_title : string;
  ev_description : string;
  ev_icon : Icon;
  ev_actions : list Action }.

Record ListItem := {
  item_key : string;
  item_icon : Icon;
  item_title : string;
  item_actions : list Action;
  item_accessories : list string }.

(** What the [List] element is given as children: an empty view, items, or
    [undefined] when [objects?.map] has no [objects]. *)
Inductive Children :=
| Child_EmptyView (v : EmptyView)
| Child_Items (items : list ListItem)
| Child_undefined.

Record ListElement := {
  list_isLoading : bool;
  list_searchBarPlaceholder : string;
  list_children : Children }.

(** What [useCachedPromise] hands to the component. *)
Record AsyncState := {
  data : option (list _Object);
  error : option JsError;
  isLoading : bool }.

Definition newline : string := String (ascii_of_nat 10) EmptyString.

(** [S3BucketObjects({ bucket })], given the value of
    [process.env.AWS_REGION] and the state of the hook. *)
Definition S3BucketObjects (AWS_REGION : option string) (bucket : Bucket)
    (state : AsyncState) : ListElement :=
  let objects := data state in
  let error := error state in
  {| list_isLoading := isLoading state;
     list_searchBarPlaceholder := "Filter objects by name...";
     list_children :=
       if isPermanentRedirectError error then
         Child_EmptyView
           {| ev_title := "Wrong region for bucket.";
              ev_description :=
                "The " +++ interpolate (match error with Some e => err_Bucket e | None => None end)
                +++ " cannot be accessed with your current region ("
                +++ interpolate AWS_REGION +++ ")." +++ newline
                +++ "Hit `Enter` to open this bucket in the AWS Console.";
              ev_icon := Icon_Globe;
              ev_actions :=
                [Action_OpenInBrowser "Open in Browser"
                   ("https://s3.console.aws.amazon.com/s3/buckets/" +++ or_empty (Name bucket))] |}
       else
         match error with
         | Some e =>
             Child_EmptyView
               {| ev_title := err_name e;
                  ev_description := err_message e;
                  ev_icon := Icon_Warning;
                  ev_actions := [] |}
         | None =>
             match objects with
             | Some objects =>
                 Child_Items
                   (map (fun object =>
                      {| item_key := or_empty (Key object);
                         item_icon := Icon_Document;
                         item_title := or_empty (Key object);
                         item_actions :=
                           [Action_OpenInBrowser "Open in Browser"
                              ("https://s3.console.aws.amazon.com/s3/object/"
                               +++ or_empty (Name bucket) +++ "?region="
                               +++ interpolate AWS_REGION +++ "&prefix="
                               +++ or_empty (Key object));
                            Action_SubmitForm "Download"
                              (or_empty (Name bucket)) (or_empty (Key object));
                            Action_CopyToClipboard "Copy Key" (or_empty (Key object))];
                         item_accessories := [humanFileSize (or_zero (Size object))] |})
                      objects)
             | None => Child_undefined
             end
         end |}.

(* ===================================================================== *)
(** * Vocabulary of the statements                                        *)
(* ===================================================================== *)

(** The objects of a page. *)
Definition page_objects (p : ListObjectsOutput) : list _Object := or_nil (Contents p).

Definition command (bucket : string) (marker : option string) : ListObjectsCommand :=
  {| cmd_Bucket := bucket; cmd_Marker := marker |}.

(** From the trace [t] on, the service answers the calls for [bucket] with
    the pages [pages], one after the other: the call with marker [marker]
    gets the first page, every page but the last names a marker, which
    gets the next page, and the last page names none. *)
Fixpoint serves (s3 : S3Client) (bucket : string) (t : Trace)
    (marker : option string) (pages : list ListObjectsOutput) : Prop :=
  match pages with
  | [] => False
  | p :: rest =>
      s3 t (command bucket marker) = inr p /\
      match rest with
      | [] => truthy_string (NextMarker p) = false
      | _ :: _ =>
          truthy_string (NextMarker p) = true /\
          serves s3 bucket (t ++ [command bucket marker]) (NextMarker p) rest
      end
  end.

(** As [serves], but every page names a marker and the call that follows
    the last of them fails with [e]. *)
Fixpoint fails_after (s3 : S3Client) (bucket : string) (t : Trace)
    (marker : option string) (pages : list ListObjectsOutput) (e : JsError) : Prop :=
  match pages with
  | [] => s3 t (command bucket marker) = inl e
  | p :: rest =>
      s3 t (command bucket marker) = inr p /\
      truthy_string (NextMarker p) = true /\
      fails_after s3 bucket (t ++ [command bucket marker]) (NextMarker p) rest e
  end.

(** The calls that follow the markers [markers], in order. *)
Definition calls (bucket : string) (markers : list (option string)) : Trace :=
  map (command bucket) markers.

(** A service that answers a call by the position of its marker in a fixed
    list of answers, whatever the bucket and the calls before. *)
Definition scripted (answers : list (option string * (JsError + ListObjectsOutput)))
    (fallback : JsError) : S3Client :=
  fun _ cmd =>
    match find (fun a => match fst a, cmd_Marker cmd with
                         | None, None => true
                         | Some x, Some y => String.eqb x y
                         | _, _ => false
                         end) answers with
    | Some a => snd a
    | None => inl fallback
    end.

(** Does the text show a decimal point? *)
Fixpoint has_point (s : string) : bool :=
  match s with
  | EmptyString => false
  | String c s' => Ascii.eqb c "." || has_point s'
  end.

(** An integer in decimal, as [Number::toString] writes an integer below
    [10^21] in absolute value. *)
Definition decimal (z : Z) : string :=
  (if z <? 0 then "-" else "") +++ digits (Z.abs z).

(** The integers [lo], [lo + 1], ..., [lo + n - 1]. *)
Definition Zrange (lo : Z) (n : nat) : list Z :=
  map (fun i => lo + Z.of_nat i) (seq 0 n).


(** A positive number that is infinite or normal with exponent field at
    least [L]: it has the 53 digits of a normal binary64 number. *)
Definition large (L : Z) (x : number) : Prop :=
  match x with
  | S754_infinity false => True
  | S754_finite false m e => Zpos (digits2_pos m) = prec /\ L <= e
  | _ => False
  end.
(* ===================================================================== *)
(** * Sample data                                                         *)
(* ===================================================================== *)

Definition object_a : _Object := {| Key := Some "a.txt"; Size := Some (of_Z 12) |}.
Definition object_b : _Object := {| Key := Some "b/c.bin"; Size := Some (of_Z 1500000) |}.
Definition object_c : _Object := {| Key := Some "d"; Size := None |}.

(** Three pages: two objects, none (no [Contents]), one object. *)
Definition sample_pages : list ListObjectsOutput :=
  [ {| Contents := Some [object_a; object_b]; NextMarker := Some "b/c.bin" |};
    {| Contents := None; NextMarker := Some "c" |};
    {| Contents := Some [object_c]; NextMarker := None |} ].

Definition access_denied : JsError :=
  {| err_isS3ServiceException := true;
     err_name := "AccessDenied";
     err_message := "Access Denied";
     err_Code := Some "AccessDenied";
     err_Bucket := None;
     err_Endpoint := None |}.

(** A service holding the three pages. *)
Definition sample_s3 : S3Client :=
  scripted
    [ (None, inr (nth 0 sample_pages {| Contents := None; NextMarker := None |}));
      (Some "b/c.bin", inr (nth 1 sample_pages {| Contents := None; NextMarker := None |}));
      (Some "c", inr (nth 2 sample_pages {| Contents := None; NextMarker := None |})) ]
    access_denied.

(** A service that serves two pages and refuses the third call. *)
Definition failing_s3 : S3Client :=
  scripted
    [ (None, inr (nth 0 sample_pages {| Contents := None; NextMarker := None |}));
      (Some "b/c.bin", inr (nth 1 sample_pages {| Contents := None; NextMarker := None |})) ]
    access_denied.

(** A service for a bucket without objects. *)
Definition empty_s3 : S3Client :=
  scripted [ (None, inr {| Contents := None; NextMarker := None |}) ] access_denied.

(** 1.5 *)
Definition one_and_a_half : number := div (of_Z 3) (of_Z 2).

(* ===================================================================== *)
(** * The rest of the command: bucket list and download                   *)
(* ===================================================================== *)

(** ** Listing the buckets *)

(** Output of [ListBucketsCommand]: the field that is destructured. *)
Record ListBucketsOutput := { Buckets : option (list Bucket) }.

(** [fetchBuckets()], given how the one call it sends is answered. *)
Definition fetchBuckets (answer : JsError + ListBucketsOutput)
    : completion (option (list Bucket)) :=
  match answer with
  | inl e => Rejected e
  | inr out => Fulfilled (Buckets out)
  end.

Inductive BucketIcon := Icon_Folder.

(** The actions of a bucket item.  [Action.Push] is kept as the bucket whose
    [S3BucketObjects] view it pushes. *)
Inductive BucketAction :=
| BucketAction_Push (target : Bucket) (title : string)
| BucketAction_OpenInBrowser (title url : string)
| BucketAction_CopyToClipboard (title content : string).

Record BucketItem := {
  bitem_icon : BucketIcon;
  bitem_title : string;
  bitem_actions : list BucketAction;
  bitem_accessories : list (option Z) }.

(** [S3Bucket({ bucket })] *)
Definition S3Bucket (bucket : Bucket) : BucketItem :=
  {| bitem_icon := Icon_Folder;
     bitem_title := or_empty (Name bucket);
     bitem_actions :=
       [BucketAction_Push bucket "List Objects";
        BucketAction_OpenInBrowser "Open in Browser"
          ("https://s3.console.aws.amazon.com/s3/buckets/" +++ or_empty (Name bucket));
        BucketAction_CopyToClipboard "Copy Name" (or_empty (Name bucket))];
     bitem_accessories := [CreationDate bucket] |}.

(** The children of the bucket list; an item goes with its React key. *)
Inductive BucketChildren :=
| Buckets_EmptyView (v : EmptyView)
| Buckets_Items (items : list (option string * BucketItem))
| Buckets_undefined.

Record BucketListElement := {
  blist_isLoading : bool;
  blist_searchBarPlaceholder : string;
  blist_children : BucketChildren }.

(** What [useCachedPromise(fetchBuckets)] hands to the component. *)
Record BucketsState := {
  buckets_data : option (list Bucket);
  buckets_error : option JsError;
  buckets_isLoading : bool }.

(** [S3()], the profile dropdown of the search bar left out. *)
Definition S3 (state : BucketsState) : BucketListElement :=
  {| blist_isLoading := buckets_isLoading state;
     blist_searchBarPlaceholder := "Filter buckets by name...";
     blist_children :=
       match buckets_error state with
       | Some error =>
           Buckets_EmptyView
             {| ev_title := err_name error;
                ev_description := err_message error;
                ev_icon := Icon_Warning;
                ev_actions := [] |}
       | None =>
           match buckets_data state with
           | Some buckets =>
               Buckets_Items (map (fun bucket => (Name bucket, S3Bucket bucket)) buckets)
           | None => Buckets_undefined
           end
       end |}.

(** ** Downloading one object *)

(** [s.split(sep)] for a separator of one character: never empty. *)
Fixpoint split (sep : ascii) (s : string) : list string :=
  match s with
  | EmptyString => [EmptyString]
  | String c s' =>
      if Ascii.eqb c sep then EmptyString :: split sep s'
      else
        match split sep s' with
        | head :: tail => String c head :: tail
        | [] => [String c EmptyString]
        end
  end.

(** [a.pop()], for its value: the last element, [undefined] of none. *)
Fixpoint pop (a : list string) : option string :=
  match a with
  | [] => None
  | [x] => Some x
  | _ :: rest => pop rest
  end.

Definition slash : ascii := "/"%char.

(** [object.Key?.split("/").pop()] *)
Definition file_name (object : _Object) : option string :=
  match Key object with
  | Some key => pop (split slash key)
  | None => None
  end.

(** Does the text hold a slash? *)
Fixpoint has_slash (s : string) : bool :=
  match s with
  | EmptyString => false
  | String c s' => Ascii.eqb c slash || has_slash s'
  end.

Inductive ToastStyle := Toast_Animated | Toast_Success | Toast_Failure.
Record Toast := { toast_style : ToastStyle; toast_title : string }.

Record GetObjectCommand := { get_Bucket : string; get_Key : string }.

(** The body of an answer: whether it is a [Readable], and its bytes. *)
Record BodyStream := { body_isReadable : bool; body_bytes : string }.
Record GetObjectOutput := { Body : option BodyStream }.

(** What a run of the download handler leaves behind: how its promise
    settles, the toast as it stands at the end ([None] when none could be
    shown), the calls sent and the streams piped into a file, by path. *)
Record Download := {
  dl_settled : completion unit;
  dl_toast : option Toast;
  dl_sent : list GetObjectCommand;
  dl_piped : list (string * BodyStream) }.

(** The [onSubmit] handler of the Download action.  [showToast] tells
    whether the host refuses to show the toast, [getObject] is the service,
    [homedir] the value of [homedir()]; opening the write stream is taken
    not to throw. *)
Definition onSubmit (showToast : Toast -> option JsError)
    (getObject : GetObjectCommand -> JsError + GetObjectOutput)
    (homedir : string) (bucket : Bucket) (object : _Object) : Download :=
  match showToast {| toast_style := Toast_Animated; toast_title := "Downloading..." |} with
  | Some e =>
      {| dl_settled := Rejected e; dl_toast := None; dl_sent := []; dl_piped := [] |}
  | None =>
      let cmd := {| get_Bucket := or_empty (Name bucket); get_Key := or_empty (Key object) |} in
      let failed :=
        {| dl_settled := Fulfilled tt;
           dl_toast := Some {| toast_style := Toast_Failure; toast_title := "Failed to download" |};
           dl_sent := [cmd];
           dl_piped := [] |} in
      match getObject cmd with
      | inl _ => failed
      | inr data =>
          match Body data with
          | Some body =>
              if body_isReadable body then
                {| dl_settled := Fulfilled tt;
                   dl_toast :=
                     Some {| toast_style := Toast_Success;
                             toast_title := "Downloaded to Downloads folder" |};
                   dl_sent := [cmd];
                   dl_piped :=
                     [(homedir +++ "/Downloads/" +++ interpolate (file_name object), body)] |}
              else failed
          | None => failed
          end
      end
  end.

(* ===================================================================== *)
(** * More vocabulary and sample data                                     *)
(* ===================================================================== *)

(** A function under a fulfilled promise. *)
Definition completion_map {A B} (f : A -> B) (c : completion A) : completion B :=
  match c with
  | Fulfilled a => Fulfilled (f a)
  | Rejected e => Rejected e
  | Pending => Pending
  end.

(** [n] divisions by the threshold. *)
Definition divisions (n : nat) (bytes : number) : number :=
  Nat.iter n (fun b => div b threshold) bytes.


(** A size that [object.Size || 0] turns into 0. *)
Definition no_size (size : option number) : Prop :=
  match size with
  | None => True
  | Some (S754_zero _) => True
  | Some S754_nan => True
  | Some _ => False
  end.

(** A service that answers every call with one object and the marker
    "again". *)
Definition endless_s3 : S3Client :=
  fun _ _ => inr {| Contents := Some [object_a]; NextMarker := Some "again" |}.

Definition sample_bucket : Bucket := {| Name := Some "photos"; CreationDate := Some 0 |}.

Definition sample_body : BodyStream := {| body_isReadable := true; body_bytes := "xyz" |}.

(* ===================================================================== *)
(** * The listing: results                                                *)
(* ===================================================================== *)

Section Listing.

Variable s3 : S3Client.
Variable bucket : string.

(** The defaulted parameter: leaving [objects] out is passing [[]]. *)
Lemma fetchBucketObjects_default fuel marker t :
  fetchBucketObjects fuel s3 bucket marker None t =
  fetchBucketObjects fuel s3 bucket marker (Some []) t.
Proof. destruct fuel; reflexivity. Qed.

(** One call that is answered. *)
Lemma fetchBucketObjects_answered fuel marker acc t out :
  s3 t (command bucket marker) = inr out ->
  fetchBucketObjects (S fuel) s3 bucket marker (Some acc) t =
  if truthy_string (NextMarker out)
  then fetchBucketObjects fuel s3 bucket (NextMarker out)
         (Some (acc ++ page_objects out)) (t ++ [command bucket marker])
  else (t ++ [command bucket marker], Fulfilled (acc ++ page_objects out)).
Proof.
  intros Hs. cbn [fetchBucketObjects]. unfold bind, send.
  fold (command bucket marker). rewrite Hs.
  destruct (truthy_string (NextMarker out)); reflexivity.
Qed.

(** One call that fails. *)
Lemma fetchBucketObjects_refused fuel marker acc t e :
  s3 t (command bucket marker) = inl e ->
  fetchBucketObjects (S fuel) s3 bucket marker acc t =
  (t ++ [command bucket marker], Rejected e).
Proof.
  intros Hs. cbn [fetchBucketObjects]. unfold bind, send.
  fold (command bucket marker). rewrite Hs. reflexivity.
Qed.

(** The whole run over a served sequence of pages, from any point. *)
Lemma fetchBucketObjects_serves pages :
  forall extra marker acc t,
    serves s3 bucket t marker pages ->
    fetchBucketObjects (List.length pages + extra) s3 bucket marker (Some acc) t =
    (t ++ calls bucket (marker :: map NextMarker (removelast pages)),
     Fulfilled (acc ++ flat_map page_objects pages)).
Proof.
  induction pages as [|p rest IH]; intros extra marker acc t Hp.
  - destruct Hp.
  - destruct Hp as [Hs Hrest].
    change (List.length (p :: rest) + extra)%nat with (S (List.length rest + extra)).
    rewrite (fetchBucketObjects_answered _ _ _ _ _ Hs).
    destruct rest as [|q rest'].
    + rewrite Hrest. cbn. rewrite app_nil_r. reflexivity.
    + destruct Hrest as [Hm Hrest]. rewrite Hm.
      rewrite (IH extra _ _ _ Hrest).
      change (removelast (p :: q :: rest')) with (p :: removelast (q :: rest')).
      cbn [map calls flat_map]. unfold calls.
      rewrite <- !app_assoc. reflexivity.
Qed.

(** The whole run when the call after the served pages fails. *)
Lemma fetchBucketObjects_fails_after pages :
  forall extra marker acc t e,
    fails_after s3 bucket t marker pages e ->
    fetchBucketObjects (S (List.length pages) + extra) s3 bucket marker (Some acc) t =
    (t ++ calls bucket (marker :: map NextMarker pages), Rejected e).
Proof.
  induction pages as [|p rest IH]; intros extra marker acc t e Hp.
  - cbn in Hp. cbn [List.length Nat.add].
    rewrite (fetchBucketObjects_refused _ _ _ _ _ Hp). reflexivity.
  - destruct Hp as (Hs & Hm & Hrest).
    change (S (List.length (p :: rest)) + extra)%nat
      with (S (S (List.length rest) + extra)).
    rewrite (fetchBucketObjects_answered _ _ _ _ _ Hs), Hm.
    rewrite (IH extra _ _ _ _ Hrest).
    cbn [map calls]. unfold calls. rewrite <- app_assoc. reflexivity.
Qed.

(** A marker that is the empty string is no marker: the listing ends. *)
Lemma fetchBucketObjects_empty_marker fuel marker acc t out :
  s3 t (command bucket marker) = inr out ->
  NextMarker out = Some "" ->
  fetchBucketObjects (S fuel) s3 bucket marker (Some acc) t =
  (t ++ [command bucket marker], Fulfilled (acc ++ page_objects out)).
Proof.
  intros Hs Hm. rewrite (fetchBucketObjects_answered _ _ _ _ _ Hs), Hm. reflexivity.
Qed.

Lemma length_flat_map_pages (pages : list ListObjectsOutput) :
  List.length (flat_map page_objects pages) =
  list_sum (map (fun p => List.length (page_objects p)) pages).
Proof.
  induction pages as [|p rest IH]; cbn; [reflexivity|].
  rewrite length_app, IH. reflexivity.
Qed.

Lemma length_removelast {A} (l : list A) :
  l <> [] -> S (List.length (removelast l)) = List.length l.
Proof.
  induction l as [|a [|b l'] IH]; intros Hne; [congruence|reflexivity|].
  change (removelast (a :: b :: l')) with (a :: removelast (b :: l')).
  cbn [List.length]. rewrite IH; [reflexivity|discriminate].
Qed.

Lemma serves_nonempty t marker pages :
  serves s3 bucket t marker pages -> pages <> [].
Proof. destruct pages; [intros []|discriminate]. Qed.

(** C1. When the service answers the calls for a bucket with N pages, each
    but the last naming a marker (a non-empty string, which is what the
    source's test of [NextMarker] takes for one), [fetchBucketObjects]
    called with the bucket alone is fulfilled, given fuel for N calls, with
    the objects of the pages in page order and within a page in the order
    of the page; their number is the sum of the page sizes; and it has sent
    exactly N calls, the first without marker and each next one with the
    [NextMarker] of the answer before. *)
Theorem fetchBucketObjects_all_pages (pages : list ListObjectsOutput) (extra : nat) :
  serves s3 bucket [] None pages ->
  exists objects,
    fetchBucketObjects (List.length pages + extra) s3 bucket None None [] =
      (calls bucket (None :: map NextMarker (removelast pages)), Fulfilled objects)
    /\ objects = List.concat (map page_objects pages)
    /\ List.length objects = list_sum (map (fun p => List.length (page_objects p)) pages)
    /\ List.length (calls bucket (None :: map NextMarker (removelast pages)))
       = List.length pages.
Proof.
  intros Hp. exists (flat_map page_objects pages).
  rewrite fetchBucketObjects_default.
  rewrite (fetchBucketObjects_serves pages extra None [] [] Hp).
  repeat split.
  - apply flat_map_concat_map.
  - apply length_flat_map_pages.
  - unfold calls. rewrite length_map. cbn [List.length]. rewrite length_map.
    apply length_removelast. exact (serves_nonempty _ _ _ Hp).
Qed.

(** C3. When the service answers k calls with pages that name a marker and
    fails the next call with [e], [fetchBucketObjects] is rejected with
    [e] itself, after those k + 1 calls, and hands no object to its
    caller: the objects of the k pages are dropped with the accumulator. *)
Theorem fetchBucketObjects_no_partial_result
    (pages : list ListObjectsOutput) (e : JsError) (extra : nat) :
  fails_after s3 bucket [] None pages e ->
  let run := fetchBucketObjects (S (List.length pages) + extra) s3 bucket None None [] in
  snd run = Rejected e
  /\ returned (snd run) = None
  /\ fst run = calls bucket (None :: map NextMarker pages)
  /\ List.length (fst run) = S (List.length pages).
Proof.
  intros Hp run. subst run.
  rewrite fetchBucketObjects_default.
  rewrite (fetchBucketObjects_fails_after pages extra None [] [] e Hp).
  cbn [fst snd returned app]. repeat split.
  unfold calls. rewrite length_map. cbn [List.length]. rewrite length_map. reflexivity.
Qed.

(** C8. When the first call is answered with a page without objects and
    without marker, [fetchBucketObjects] is fulfilled with the empty list
    and that call is the only one sent. *)
Theorem fetchBucketObjects_empty_bucket (out : ListObjectsOutput) (extra : nat) :
  s3 [] (command bucket None) = inr out ->
  page_objects out = [] ->
  truthy_string (NextMarker out) = false ->
  fetchBucketObjects (S extra) s3 bucket None None [] =
  ([command bucket None], Fulfilled []).
Proof.
  intros Hs Hc Hm. rewrite fetchBucketObjects_default.
  rewrite (fetchBucketObjects_answered _ _ _ _ _ Hs), Hm, Hc. reflexivity.
Qed.

(** C10. A page without [Contents] is an empty page: the call that gets it
    leaves the accumulated objects as they are, and the listing goes on
    with the marker of the page when it names one and is fulfilled with
    the accumulated objects when it names none. *)
Theorem fetchBucketObjects_absent_contents
    (fuel : nat) (marker : option string) (acc : list _Object) (t : Trace)
    (out : ListObjectsOutput) :
  s3 t (command bucket marker) = inr out ->
  Contents out = None ->
  fetchBucketObjects (S fuel) s3 bucket marker (Some acc) t =
  if truthy_string (NextMarker out)
  then fetchBucketObjects fuel s3 bucket (NextMarker out) (Some acc)
         (t ++ [command bucket marker])
  else (t ++ [command bucket marker], Fulfilled acc).
Proof.
  intros Hs Hc. rewrite (fetchBucketObjects_answered _ _ _ _ _ Hs).
  unfold page_objects. rewrite Hc. cbn [or_nil]. rewrite app_nil_r. reflexivity.
Qed.

End Listing.

Lemma fetchBucketObjects_all_pages_witness :
  exists objects,
    fetchBucketObjects (3 + 0) sample_s3 "photos" None None [] =
      (calls "photos" [None; Some "b/c.bin"; Some "c"], Fulfilled objects)
    /\ objects = [object_a; object_b; object_c]
    /\ List.length objects = list_sum [2; 0; 1]%nat
    /\ List.length (calls "photos" [None; Some "b/c.bin"; Some "c"]) = 3%nat.
Proof.
  apply (fetchBucketObjects_all_pages sample_s3 "photos" sample_pages 0).
  cbn. repeat split; reflexivity.
Defined.

Lemma fetchBucketObjects_no_partial_result_witness :
  let run := fetchBucketObjects (3 + 0) failing_s3 "photos" None None [] in
  snd run = Rejected access_denied
  /\ returned (snd run) = None
  /\ fst run = calls "photos" [None; Some "b/c.bin"; Some "c"]
  /\ List.length (fst run) = 3%nat.
Proof.
  apply (fetchBucketObjects_no_partial_result failing_s3 "photos"
           (firstn 2 sample_pages) access_denied 0).
  cbn. repeat split; reflexivity.
Defined.

Lemma fetchBucketObjects_empty_bucket_witness :
  fetchBucketObjects (1 + 0) empty_s3 "empty" None None [] =
  ([command "empty" None], Fulfilled []).
Proof.
  apply (fetchBucketObjects_empty_bucket empty_s3 "empty"
           {| Contents := None; NextMarker := None |} 0); reflexivity.
Defined.

Lemma fetchBucketObjects_absent_contents_witness :
  fetchBucketObjects 2 sample_s3 "photos" (Some "b/c.bin")
    (Some [object_a; object_b]) [command "photos" None] =
  fetchBucketObjects 1 sample_s3 "photos" (Some "c")
    (Some [object_a; object_b]) [command "photos" None; command "photos" (Some "b/c.bin")].
Proof.
  apply (fetchBucketObjects_absent_contents sample_s3 "photos" 1 (Some "b/c.bin")
           [object_a; object_b] [command "photos" None]
           {| Contents := None; NextMarker := Some "c" |}); reflexivity.
Defined.

(* ===================================================================== *)
(** * The view: which error is shown how                                  *)
(* ===================================================================== *)



(* ===================================================================== *)
(** * The size formatter: results                                         *)
(* ===================================================================== *)

(** The loop, one turn at a time. *)
Lemma do_while_step (bytes : number) (u : Z) :
  do_while bytes u =
  if again (div bytes threshold) (u + 1)
  then do_while (div bytes threshold) (u + 1)
  else (div bytes threshold, u + 1).
Proof.
  rewrite do_while_equation_1.
  destruct (inspect (again (div bytes threshold) (u + 1))) as [[|] E];
    cbn [do_while_unfold_clause_1]; rewrite E; reflexivity.
Qed.

Lemma again_guard (bytes : number) (u : Z) :
  again bytes u = true -> u < Z.of_nat (List.length units) - 1.
Proof.
  unfold again. intros H. apply andb_prop in H. apply Z.ltb_lt, H.
Qed.

(** The loop moves the unit index forward and stops at the last unit. *)
Lemma do_while_index (n : nat) :
  forall bytes u,
    (steps_left u <= n)%nat ->
    u < Z.of_nat (List.length units) - 1 ->
    u < snd (do_while bytes u) <= Z.of_nat (List.length units) - 1.
Proof.
  induction n as [|n IH]; intros bytes u Hn Hu; rewrite do_while_step;
    destruct (again (div bytes threshold) (u + 1)) eqn:E; cbn [snd];
    try lia; apply again_guard in E.
  - unfold steps_left in Hn. lia.
  - assert (u + 1 < snd (do_while (div bytes threshold) (u + 1))
            <= Z.of_nat (List.length units) - 1).
    { apply IH; [unfold steps_left in *; lia | exact E]. }
    lia.
Qed.

Lemma index_units (u : Z) :
  0 <= u < Z.of_nat (List.length units) -> In (index units u) units.
Proof.
  cbn. intros Hu.
  assert (u = 0 \/ u = 1 \/ u = 2 \/ u = 3 \/ u = 4 \/ u = 5 \/ u = 6 \/ u = 7)
    as Hc by lia.
  repeat (destruct Hc as [-> | Hc]; [cbn; tauto|]). subst u. cbn. tauto.
Qed.

Lemma In_Zrange (lo z : Z) (n : nat) :
  lo <= z < lo + Z.of_nat n -> In z (Zrange lo n).
Proof.
  intros H. unfold Zrange. apply in_map_iff.
  exists (Z.to_nat (z - lo)). split; [lia|].
  apply in_seq. lia.
Qed.

Lemma forallb_Zrange (f : Z -> bool) (lo z : Z) (n : nat) :
  forallb f (Zrange lo n) = true -> lo <= z < lo + Z.of_nat n -> f z = true.
Proof.
  intros Hall Hz. rewrite forallb_forall in Hall. apply Hall, In_Zrange, Hz.
Qed.

(** C4. The vectors of the formatter: 0 gives "0 B", 999 gives "999 B",
    1000 gives "1 kB", 1500000 gives "2 MB" and -2048 gives "-2 kB". *)
Theorem humanFileSize_vectors :
  humanFileSize (of_Z 0) = "0 B"
  /\ humanFileSize (of_Z 999) = "999 B"
  /\ humanFileSize (of_Z 1000) = "1 kB"
  /\ humanFileSize (of_Z 1500000) = "2 MB"
  /\ humanFileSize (of_Z (-2048)) = "-2 kB".
Proof. vm_compute. repeat split; reflexivity. Qed.

(** C5, as stated, fails: 1.5 is a number below the threshold and the
    formatter writes its fraction. *)
Lemma humanFileSize_fraction_shown :
  ~ (forall bytes : number,
       is_number bytes = true ->
       lt (Math_abs bytes) threshold = true ->
       has_point (humanFileSize bytes) = false).
Proof.
  intros H. specialize (H one_and_a_half eq_refl eq_refl).
  vm_compute in H. discriminate H.
Qed.

Lemma humanFileSize_one_and_a_half : humanFileSize one_and_a_half = "1.5 B".
Proof. vm_compute. reflexivity. Qed.

(** Below the threshold the text is that of the number itself. *)
Lemma humanFileSize_below_threshold (bytes : number) :
  lt (Math_abs bytes) threshold = true ->
  humanFileSize bytes = Number_toString bytes +++ " B".
Proof. unfold humanFileSize. intros ->. reflexivity. Qed.

(** C5, amended. For every integer n with |n| < 1000 the formatter writes
    n in decimal, with a minus sign when negative, followed by " B": no
    point and no fraction digit. *)
Theorem humanFileSize_small_integer (n : Z) :
  -1000 < n < 1000 ->
  humanFileSize (of_Z n) = decimal n +++ " B"
  /\ has_point (humanFileSize (of_Z n)) = false.
Proof.
  intros Hn.
  pose (f := fun z => String.eqb (humanFileSize (of_Z z)) (decimal z +++ " B")
                      && negb (has_point (humanFileSize (of_Z z)))).
  assert (f n = true) as Hf.
  { apply (forallb_Zrange f (-999) n 1999); [vm_compute; reflexivity | lia]. }
  unfold f in Hf. apply andb_prop in Hf. destruct Hf as [H1 H2].
  apply String.eqb_eq in H1. apply negb_true_iff in H2. split; assumption.
Qed.

Lemma humanFileSize_small_integer_witness :
  humanFileSize (of_Z (-37)) = decimal (-37) +++ " B"
  /\ has_point (humanFileSize (of_Z (-37))) = false.
Proof. apply (humanFileSize_small_integer (-37)). lia. Defined.

(** C7. The loop is a total function, and from the start of the formatter
    it leaves a unit index within the units, so that the unit written is
    one of "kB" ... "YB", whatever the number: finite of any size,
    infinite or NaN. *)
Theorem humanFileSize_unit_in_range (bytes : number) :
  let u := snd (do_while bytes (-1)) in
  0 <= u <= 7
  /\ In (index units u) units
  /\ humanFileSize bytes =
     (if lt (Math_abs bytes) threshold
      then Number_toString bytes +++ " B"
      else toFixed (fst (do_while bytes (-1))) +++ " " +++ index units u).
Proof.
  intros u.
  assert (-1 < u <= Z.of_nat (List.length units) - 1) as Hu.
  { apply (do_while_index (steps_left (-1))); [lia | cbn; lia]. }
  cbn in Hu. split; [lia|]. split.
  - apply index_units. cbn. lia.
  - unfold humanFileSize. subst u.
    destruct (do_while bytes (-1)) as [b v]. reflexivity.
Qed.

Lemma thousand_range_check :
  forallb (fun n => String.eqb (humanFileSize (of_Z n)) "1000 kB")
    (Zrange 999500 450) = true.
Proof. vm_compute. reflexivity. Qed.

(** Every integer from 999500 to 999949 is written "1000 kB". *)
Lemma humanFileSize_thousand_interval (n : Z) :
  999500 <= n < 999950 -> humanFileSize (of_Z n) = "1000 kB".
Proof.
  intros Hn. apply String.eqb_eq.
  apply (forallb_Zrange
           (fun n => String.eqb (humanFileSize (of_Z n)) "1000 kB") 999500 n 450
           thousand_range_check).
  lia.
Qed.


(* ===================================================================== *)
(** * The size formatter on a number and on its opposite                  *)
(* ===================================================================== *)

(** ** The sign goes through a division unchanged *)

Lemma binary_round_aux_opp (s : bool) (m e : Z) (l : location) :
  binary_round_aux prec emax (negb s) m e l =
  SFopp (binary_round_aux prec emax s m e l).
Proof.
  unfold binary_round_aux.
  destruct (shr_fexp prec emax m e l) as [mrs' e'].
  destruct (shr_fexp prec emax _ e' loc_Exact) as [mrs'' e''].
  destruct (shr_m mrs''); [reflexivity| |reflexivity].
  destruct (e'' <=? emax - prec); reflexivity.
Qed.

Lemma div_opp (x y : number) : div (SFopp x) y = SFopp (div x y).
Proof.
  unfold div.
  destruct x as [sx|sx| |sx mx ex], y as [sy|sy| |sy my ey]; cbn [SFopp SFdiv];
    try rewrite <- negb_xorb_l; try reflexivity.
  destruct (SFdiv_core_binary prec emax (Z.pos mx) ex (Z.pos my) ey) as [[mz ez] lz].
  apply binary_round_aux_opp.
Qed.

Lemma Math_abs_opp (x : number) : Math_abs (SFopp x) = Math_abs x.
Proof. destruct x; reflexivity. Qed.

Lemma again_opp (bytes : number) (u : Z) : again (SFopp bytes) u = again bytes u.
Proof. unfold again. rewrite Math_abs_opp. reflexivity. Qed.

Lemma do_while_opp (n : nat) :
  forall bytes u,
    (steps_left u <= n)%nat ->
    do_while (SFopp bytes) u =
    (SFopp (fst (do_while bytes u)), snd (do_while bytes u)).
Proof.
  induction n as [|n IH]; intros bytes u Hn;
    rewrite (do_while_step (SFopp bytes)), (do_while_step bytes);
    rewrite div_opp, again_opp;
    destruct (again (div bytes threshold) (u + 1)) eqn:E; try reflexivity;
    apply again_guard in E.
  - unfold steps_left in Hn. lia.
  - apply IH. unfold steps_left in *. lia.
Qed.

(** ** Binary digits *)

Lemma digits2_pos_size (p : positive) : digits2_pos p = Pos.size p.
Proof. induction p as [p IH|p IH|]; cbn; [rewrite IH| rewrite IH|]; reflexivity. Qed.

Lemma digits2_pos_bounds (p : positive) :
  2 ^ (Zpos (digits2_pos p) - 1) <= Zpos p < 2 ^ Zpos (digits2_pos p).
Proof.
  rewrite digits2_pos_size.
  pose proof (Pos.size_gt p) as Hgt. pose proof (Pos.size_le p) as Hle.
  apply Pos2Z.pos_lt_pos in Hgt. apply Pos2Z.pos_le_pos in Hle.
  rewrite Pos2Z.inj_pow in Hgt, Hle.
  split; [|exact Hgt].
  replace (Zpos (Pos.size p)) with (Z.succ (Zpos (Pos.size p) - 1)) in Hle by lia.
  rewrite Z.pow_succ_r in Hle by lia. lia.
Qed.

Lemma digits2_pos_unique (p : positive) (k : Z) :
  2 ^ (k - 1) <= Zpos p < 2 ^ k -> Zpos (digits2_pos p) = k.
Proof.
  intros [Hlo Hhi]. pose proof (digits2_pos_bounds p) as [Dlo Dhi].
  set (d := Zpos (digits2_pos p)) in *.
  assert (0 < d) by (subst d; lia).
  destruct (Z.lt_trichotomy d k) as [Hlt|[Heq|Hgt]]; [|exact Heq|].
  - assert (2 ^ d <= 2 ^ (k - 1)) by (apply Z.pow_le_mono_r; lia). lia.
  - assert (k < 0 \/ 0 <= k) as [Hk|Hk] by lia.
    + rewrite (Z.pow_neg_r 2 k) in Hhi by lia. lia.
    + assert (2 ^ k <= 2 ^ (d - 1)) by (apply Z.pow_le_mono_r; lia). lia.
Qed.

(** ** Rounding a quotient with 53 or 54 digits *)

Lemma fexp_normal (k : Z) : -1021 <= k -> fexp prec emax k = k - prec.
Proof. unfold fexp, SpecFloat.emin, prec, emax. lia. Qed.

Lemma round_nearest_even_cases (m : Z) (l : location) :
  round_nearest_even m l = m \/ round_nearest_even m l = m + 1.
Proof.
  destruct l as [|[| |]]; cbn; auto. destruct (Z.even m); auto.
Qed.

Lemma loc_of_shr_record_of_loc (m : Z) (l : location) :
  loc_of_shr_record (shr_record_of_loc m l) = l.
Proof. destruct l as [|[| |]]; reflexivity. Qed.

Lemma shr_m_of_loc (m : Z) (l : location) : shr_m (shr_record_of_loc m l) = m.
Proof. destruct l as [|[| |]]; reflexivity. Qed.

Lemma shr_1_halves (p : positive) (l : location) :
  2 <= Zpos p ->
  exists p', shr_m (shr_1 (shr_record_of_loc (Zpos p) l)) = Zpos p'
             /\ 2 * Zpos p' <= Zpos p <= 2 * Zpos p' + 1.
Proof.
  intros Hp. destruct p as [p|p|]; [exists p|exists p|lia];
    (split; [destruct l as [|[| |]]; reflexivity | lia]).
Qed.

(** The second half of [binary_round_aux]: a mantissa of 53 digits is
    rounded to one of 53 digits, or the result is infinite. *)
Lemma round_stage (L m1 e1 : Z) (loc : location) :
  2 ^ 52 <= m1 < 2 ^ 53 -> -1074 <= e1 -> L <= e1 ->
  large L
    (let '(mrs, e) :=
       shr_fexp prec emax (round_nearest_even m1 loc) e1 loc_Exact in
     match shr_m mrs with
     | 0 => S754_zero false
     | Z.pos m => if e <=? emax - prec then S754_finite false m e else S754_infinity false
     | Z.neg _ => S754_nan
     end).
Proof.
  intros Hm He HL.
  assert (round_nearest_even m1 loc < 2 ^ 53 \/ round_nearest_even m1 loc = 2 ^ 53) as [Hlt|Heq].
  { destruct (round_nearest_even_cases m1 loc) as [-> | ->]; lia. }
  - assert (2 ^ 52 <= round_nearest_even m1 loc).
    { destruct (round_nearest_even_cases m1 loc) as [-> | ->]; lia. }
    destruct (round_nearest_even m1 loc) as [|p|p] eqn:Er; try lia.
    assert (Zpos (digits2_pos p) = 53) as Hd by (apply digits2_pos_unique; lia).
    unfold shr_fexp. cbn [Zdigits2]. rewrite Hd.
    rewrite fexp_normal by lia.
    replace (53 + e1 - prec - e1) with 0 by (unfold prec; lia).
    cbn [shr shr_record_of_loc shr_m].
    destruct (e1 <=? emax - prec); cbn; auto.
  - rewrite Heq. unfold shr_fexp.
    change (Zdigits2 (2 ^ 53)) with 54.
    rewrite fexp_normal by lia.
    replace (54 + e1 - prec - e1) with 1 by (unfold prec; lia).
    cbn [shr shr_record_of_loc shr_m iter_pos]. cbn.
    destruct (e1 + 1 <=? 971); cbn; [split; [reflexivity|lia] | exact I].
Qed.

Lemma binary_round_aux_large (L q ez : Z) (l : location) :
  2 ^ 52 <= q < 2 ^ 54 -> -1074 <= ez -> L <= ez ->
  large L (binary_round_aux prec emax false q ez l).
Proof.
  intros Hq He HL. unfold binary_round_aux.
  destruct q as [|p|p]; try lia.
  assert (Zpos p < 2 ^ 53 \/ 2 ^ 53 <= Zpos p) as [Hlt|Hge] by lia.
  - assert (Zpos (digits2_pos p) = 53) as Hd by (apply digits2_pos_unique; lia).
    assert (shr_fexp prec emax (Zpos p) ez l = (shr_record_of_loc (Zpos p) l, ez)) as ->.
    { unfold shr_fexp. cbn [Zdigits2]. rewrite Hd.
      rewrite fexp_normal by lia.
      replace (53 + ez - prec - ez) with 0 by (unfold prec; lia). reflexivity. }
    rewrite shr_m_of_loc, loc_of_shr_record_of_loc.
    apply round_stage; lia.
  - assert (Zpos (digits2_pos p) = 54) as Hd by (apply digits2_pos_unique; lia).
    assert (shr_fexp prec emax (Zpos p) ez l =
            (shr_1 (shr_record_of_loc (Zpos p) l), ez + 1)) as ->.
    { unfold shr_fexp. cbn [Zdigits2]. rewrite Hd.
      rewrite fexp_normal by lia.
      replace (54 + ez - prec - ez) with 1 by (unfold prec; lia). reflexivity. }
    destruct (shr_1_halves p l) as (p' & Hp' & Hb); [lia|].
    rewrite Hp'. apply round_stage; lia.
Qed.

(** ** Dividing a large number by the threshold *)

Lemma threshold_eq : threshold = S754_finite false 8796093022208000 (-43).
Proof. reflexivity. Qed.

Lemma div_eucl_div_mod (a b : Z) : Z.div_eucl a b = (a / b, a mod b).
Proof. unfold Z.div, Z.modulo. destruct (Z.div_eucl a b); reflexivity. Qed.

Lemma SFdiv_core_threshold (m : positive) (e : Z) :
  Zpos (digits2_pos m) = prec -> -1011 <= e ->
  SFdiv_core_binary prec emax (Zpos m) e 8796093022208000 (-43) =
  (Zpos m * 2 ^ 53 / 8796093022208000, e - 10,
   new_location 8796093022208000 ((Zpos m * 2 ^ 53) mod 8796093022208000)).
Proof.
  intros Hd He. unfold SFdiv_core_binary. cbn [Zdigits2]. rewrite Hd.
  change (Zpos (digits2_pos 8796093022208000)) with 53.
  rewrite fexp_normal by (unfold prec; lia).
  replace (Z.min (prec + e - (53 + -43) - prec) (e - -43)) with (e - 10)
    by (unfold prec; lia).
  replace (e - -43 - (e - 10)) with 53 by lia.
  cbv zeta. rewrite Z.shiftl_mul_pow2 by lia.
  rewrite div_eucl_div_mod. reflexivity.
Qed.

Lemma div_large (L : Z) (bytes : number) :
  -1000 <= L -> large L bytes -> large (L - 10) (div bytes threshold).
Proof.
  intros HL Hb. rewrite threshold_eq. unfold div.
  destruct bytes as [s|[|]| |[|] m e]; cbn [large] in Hb; try contradiction.
  - exact I.
  - destruct Hb as [Hd He]. cbn [SFdiv xorb].
    rewrite SFdiv_core_threshold by (assumption || lia).
    pose proof (digits2_pos_bounds m) as Hm. rewrite Hd in Hm.
    change (prec - 1) with 52 in Hm. change prec with 53 in Hm.
    apply binary_round_aux_large; try lia. split.
    + apply Z.div_le_lower_bound; lia.
    + apply Z.div_lt_upper_bound; lia.
Qed.

Lemma large_weaken (L L' : Z) (x : number) :
  L' <= L -> large L x -> large L' x.
Proof.
  intros HLL. destruct x as [s|[|]| |[|] m e]; cbn [large]; try tauto.
  intros [Hd He]. split; [exact Hd | lia].
Qed.

(** The loop keeps a large number large: it divides at most eight times. *)
Lemma do_while_large (n : nat) :
  forall bytes u,
    (steps_left u <= n)%nat -> -1 <= u <= 7 ->
    large (-500 - 10 * u) bytes ->
    large (-600) (fst (do_while bytes u)).
Proof.
  induction n as [|n IH]; intros bytes u Hn Hu Hb; rewrite do_while_step;
    destruct (again (div bytes threshold) (u + 1)) eqn:E; cbn [fst].
  - apply again_guard in E. unfold steps_left in Hn.
    change (Z.of_nat (List.length units)) with 8 in *. lia.
  - apply (large_weaken (-500 - 10 * u - 10)); [lia|].
    apply div_large; [lia | exact Hb].
  - apply again_guard in E. unfold steps_left in *.
    change (Z.of_nat (List.length units)) with 8 in *.
    apply IH; [lia | lia |].
    replace (-500 - 10 * (u + 1)) with (-500 - 10 * u - 10) by lia.
    apply div_large; [lia | exact Hb].
  - apply (large_weaken (-500 - 10 * u - 10)); [lia|].
    apply div_large; [lia | exact Hb].
Qed.

(** ** The formatter *)

(** A positive number that is not below the threshold is large. *)
Lemma large_of_positive (x : number) :
  is_number x = true ->
  lt (of_Z 0) x = true ->
  lt (Math_abs x) threshold = false ->
  large (-43) x.
Proof.
  intros Hv Hpos Hge. rewrite threshold_eq in Hge.
  destruct x as [s|[|]| |[|] m e]; try discriminate Hpos; [exact I|].
  cbn [large]. unfold lt, Math_abs, SFabs, SFltb, SFcompare in Hge.
  assert (-43 <= e) as He.
  { destruct (e ?= -43) eqn:Ec; try discriminate Hge.
    - apply Z.compare_eq in Ec. lia.
    - apply Z.compare_gt_iff in Ec. lia. }
  split; [|exact He].
  unfold is_number, valid_binary, bounded in Hv.
  apply andb_prop in Hv. destruct Hv as [Hc _].
  unfold canonical_mantissa in Hc. apply Z.eqb_eq in Hc.
  unfold fexp, SpecFloat.emin, prec, emax in *. lia.
Qed.

Lemma toFixed_opp (L : Z) (x : number) :
  large L x -> toFixed (SFopp x) = "-" +++ toFixed x.
Proof.
  destruct x as [s|[|]| |[|] m e]; cbn [large]; try contradiction; intros _.
  - reflexivity.
  - cbn [SFopp negb toFixed].
    destruct (compare_scaled 1 21 (Zpos m) e); reflexivity.
Qed.

(** C6. A positive number and its opposite are formatted alike: the
    comparisons that choose the unit read the absolute value, so both get
    the same unit, and the text for the opposite is the text for the
    number behind a minus sign. *)
Theorem humanFileSize_opposite (x : number) :
  is_number x = true ->
  lt (of_Z 0) x = true ->
  humanFileSize (SFopp x) = "-" +++ humanFileSize x
  /\ lt (Math_abs (SFopp x)) threshold = lt (Math_abs x) threshold
  /\ (forall bytes u, again (SFopp bytes) u = again bytes u)
  /\ snd (do_while (SFopp x) (-1)) = snd (do_while x (-1)).
Proof.
  intros Hv Hpos. split; [|split; [|split]].
  - unfold humanFileSize. rewrite Math_abs_opp.
    destruct (lt (Math_abs x) threshold) eqn:Hlt.
    + destruct x as [s|[|]| |[|] m e]; try discriminate Hpos; try discriminate Hlt.
      reflexivity.
    + rewrite (do_while_opp (steps_left (-1))) by lia.
      assert (large (-600) (fst (do_while x (-1)))) as Hl.
      { apply (do_while_large (steps_left (-1))); [lia | lia |].
        apply (large_weaken (-43)); [lia|].
        apply large_of_positive; assumption. }
      destruct (do_while x (-1)) as [b u]. cbn [fst snd] in *.
      rewrite (toFixed_opp _ _ Hl). reflexivity.
  - rewrite Math_abs_opp. reflexivity.
  - exact again_opp.
  - rewrite (do_while_opp (steps_left (-1))) by lia. reflexivity.
Qed.

Lemma humanFileSize_opposite_witness :
  humanFileSize (SFopp (of_Z 2048)) = "-" +++ humanFileSize (of_Z 2048)
  /\ lt (Math_abs (SFopp (of_Z 2048))) threshold = lt (Math_abs (of_Z 2048)) threshold
  /\ (forall bytes u, again (SFopp bytes) u = again bytes u)
  /\ snd (do_while (SFopp (of_Z 2048)) (-1)) = snd (do_while (of_Z 2048) (-1)).
Proof. apply (humanFileSize_opposite (of_Z 2048)); reflexivity. Defined.

(** The zeros and NaN have no sign to show. *)
Lemma humanFileSize_unsigned :
  humanFileSize (SFopp (of_Z 0)) = humanFileSize (of_Z 0)
  /\ humanFileSize (SFopp S754_nan) = humanFileSize S754_nan.
Proof. vm_compute. split; reflexivity. Qed.

(* ===================================================================== *)
(** * The listing: what a run can be                                      *)
(* ===================================================================== *)

Section ListingRuns.

Variable s3 : S3Client.
Variable bucket : string.

Lemma fetchBucketObjects_fulfilled_inv (fuel : nat) :
  forall marker acc t t' objects,
    fetchBucketObjects fuel s3 bucket marker (Some acc) t = (t', Fulfilled objects) ->
    exists pages,
      serves s3 bucket t marker pages
      /\ (List.length pages <= fuel)%nat
      /\ objects = acc ++ flat_map page_objects pages
      /\ t' = t ++ calls bucket (marker :: map NextMarker (removelast pages)).
Proof.
  induction fuel as [|fuel IH]; intros marker acc t t' objects Hrun.
  - discriminate Hrun.
  - destruct (s3 t (command bucket marker)) as [e|out] eqn:Hs.
    + rewrite (fetchBucketObjects_refused _ _ _ _ _ _ _ Hs) in Hrun. discriminate Hrun.
    + rewrite (fetchBucketObjects_answered _ _ _ _ _ _ _ Hs) in Hrun.
      destruct (truthy_string (NextMarker out)) eqn:Hm.
      * destruct (IH _ _ _ _ _ Hrun) as (pages & Hp & Hlen & Hobj & Ht).
        exists (out :: pages). destruct pages as [|q rest]; [destruct Hp|].
        split; [|split; [|split]].
        -- split; [exact Hs|]. split; [exact Hm | exact Hp].
        -- cbn [List.length] in *. lia.
        -- rewrite Hobj. change (flat_map page_objects (out :: q :: rest))
             with (page_objects out ++ flat_map page_objects (q :: rest)).
           rewrite app_assoc. reflexivity.
        -- rewrite Ht. change (removelast (out :: q :: rest)) with (out :: removelast (q :: rest)).
           cbn [map calls]. unfold calls. rewrite <- app_assoc. reflexivity.
      * injection Hrun as <- <-. exists [out].
        split; [|split; [|split]].
        -- split; [exact Hs | exact Hm].
        -- cbn. lia.
        -- cbn. rewrite app_nil_r. reflexivity.
        -- reflexivity.
Qed.

Lemma fetchBucketObjects_rejected_inv (fuel : nat) :
  forall marker acc t t' e,
    fetchBucketObjects fuel s3 bucket marker (Some acc) t = (t', Rejected e) ->
    exists pages,
      fails_after s3 bucket t marker pages e
      /\ (S (List.length pages) <= fuel)%nat
      /\ t' = t ++ calls bucket (marker :: map NextMarker pages).
Proof.
  induction fuel as [|fuel IH]; intros marker acc t t' e Hrun.
  - discriminate Hrun.
  - destruct (s3 t (command bucket marker)) as [e'|out] eqn:Hs.
    + rewrite (fetchBucketObjects_refused _ _ _ _ _ _ _ Hs) in Hrun.
      injection Hrun as <- <-. exists [].
      split; [exact Hs|]. split; [cbn; lia | reflexivity].
    + rewrite (fetchBucketObjects_answered _ _ _ _ _ _ _ Hs) in Hrun.
      destruct (truthy_string (NextMarker out)) eqn:Hm; [|discriminate Hrun].
      destruct (IH _ _ _ _ _ Hrun) as (pages & Hp & Hlen & Ht).
      exists (out :: pages). split; [|split].
      * split; [exact Hs|]. split; [exact Hm | exact Hp].
      * cbn [List.length]. lia.
      * rewrite Ht. cbn [map calls]. unfold calls. rewrite <- app_assoc. reflexivity.
Qed.

(** X1. A fulfilled listing returns nothing but what the service served:
    its result is the concatenation, in order, of a sequence of pages that
    the service did answer to the calls sent, the first without marker and
    each next one with the marker of the page before, the last page alone
    without marker. *)
Theorem fetchBucketObjects_fulfilled_only_served
    (fuel : nat) (t' : Trace) (objects : list _Object) :
  fetchBucketObjects fuel s3 bucket None None [] = (t', Fulfilled objects) ->
  exists pages,
    serves s3 bucket [] None pages
    /\ objects = List.concat (map page_objects pages)
    /\ t' = calls bucket (None :: map NextMarker (removelast pages))
    /\ (List.length pages <= fuel)%nat.
Proof.
  rewrite fetchBucketObjects_default. intros Hrun.
  destruct (fetchBucketObjects_fulfilled_inv _ _ _ _ _ _ Hrun) as (pages & Hp & Hl & Ho & Ht).
  exists pages. split; [exact Hp|]. split; [|split; [exact Ht | exact Hl]].
  rewrite Ho. apply flat_map_concat_map.
Qed.

(** X2. A listing is rejected only with an error of the service, and
    unchanged: the error is the answer to the last call sent, and every
    call before it was answered with a page that names a marker. *)
Theorem fetchBucketObjects_rejected_only_by_service
    (fuel : nat) (t' : Trace) (e : JsError) :
  fetchBucketObjects fuel s3 bucket None None [] = (t', Rejected e) ->
  exists pages,
    fails_after s3 bucket [] None pages e
    /\ t' = calls bucket (None :: map NextMarker pages).
Proof.
  rewrite fetchBucketObjects_default. intros Hrun.
  destruct (fetchBucketObjects_rejected_inv _ _ _ _ _ _ Hrun) as (pages & Hp & _ & Ht).
  exists pages. split; assumption.
Qed.

(** Either way of passing no objects. *)
Lemma fetchBucketObjects_some fuel marker (acc : option (list _Object)) t :
  fetchBucketObjects fuel s3 bucket marker acc t =
  fetchBucketObjects fuel s3 bucket marker
    (Some (match acc with Some o => o | None => [] end)) t.
Proof. destruct acc; [reflexivity | apply fetchBucketObjects_default]. Qed.

(** X3. Whatever the service answers, a run only adds calls to those
    already sent, every call it adds is for the bucket asked for, it adds
    at most one call per level of recursion, and it is left pending only
    when all of them were used. *)
Theorem fetchBucketObjects_calls (fuel : nat) :
  forall marker acc t,
    exists new,
      fst (fetchBucketObjects fuel s3 bucket marker acc t) = t ++ new
      /\ Forall (fun c => cmd_Bucket c = bucket) new
      /\ (List.length new <= fuel)%nat
      /\ (snd (fetchBucketObjects fuel s3 bucket marker acc t) = Pending ->
          List.length new = fuel).
Proof.
  induction fuel as [|fuel IH]; intros marker acc t.
  - exists []. cbn. rewrite app_nil_r. repeat split; auto.
  - rewrite fetchBucketObjects_some.
    assert (Forall (fun c => cmd_Bucket c = bucket) [command bucket marker]) as Hone.
    { constructor; [reflexivity | constructor]. }
    destruct (s3 t (command bucket marker)) as [e|out] eqn:Hs.
    + rewrite (fetchBucketObjects_refused _ _ _ _ _ _ _ Hs).
      exists [command bucket marker]. cbn [fst snd List.length].
      split; [reflexivity|]. split; [exact Hone|]. split; [lia | discriminate].
    + rewrite (fetchBucketObjects_answered _ _ _ _ _ _ _ Hs).
      destruct (truthy_string (NextMarker out)).
      * match goal with
        | |- context [fetchBucketObjects fuel s3 bucket ?m ?a ?u] =>
            destruct (IH m a u) as (new & Ht & Hb & Hl & Hp)
        end.
        exists (command bucket marker :: new).
        split; [rewrite Ht, <- app_assoc; reflexivity|].
        split; [constructor; [reflexivity | exact Hb]|].
        split; [cbn [List.length]; lia|].
        intros HP. cbn [List.length]. rewrite (Hp HP). reflexivity.
      * exists [command bucket marker]. cbn [fst snd List.length].
        split; [reflexivity|]. split; [exact Hone|]. split; [lia | discriminate].
Qed.

(** Once a run has settled, more fuel changes nothing: the calls and the
    outcome stay the same. *)
Lemma fetchBucketObjects_fuel_monotone (fuel extra : nat) :
  forall marker acc t,
    snd (fetchBucketObjects fuel s3 bucket marker acc t) <> Pending ->
    fetchBucketObjects (fuel + extra) s3 bucket marker acc t =
    fetchBucketObjects fuel s3 bucket marker acc t.
Proof.
  induction fuel as [|fuel IH]; intros marker acc t Hset.
  - cbn in Hset. congruence.
  - change (S fuel + extra)%nat with (S (fuel + extra)).
    rewrite (fetchBucketObjects_some (S fuel)) in Hset.
    rewrite (fetchBucketObjects_some (S fuel)), (fetchBucketObjects_some (S (fuel + extra))).
    destruct (s3 t (command bucket marker)) as [e|out] eqn:Hs.
    + rewrite !(fetchBucketObjects_refused _ _ _ _ _ _ _ Hs). reflexivity.
    + rewrite !(fetchBucketObjects_answered _ _ _ _ _ _ _ Hs) in *.
      destruct (truthy_string (NextMarker out)); [apply IH; exact Hset | reflexivity].
Qed.

(** X4. No cap on the pages: against a service that answers every call
    with a page that names a marker the listing never settles, and each
    level of recursion sends one more call. *)
Theorem fetchBucketObjects_endless (fuel : nat) :
  (forall t cmd, exists out, s3 t cmd = inr out /\ truthy_string (NextMarker out) = true) ->
  forall marker acc t,
    snd (fetchBucketObjects fuel s3 bucket marker acc t) = Pending
    /\ List.length (fst (fetchBucketObjects fuel s3 bucket marker acc t))
       = (List.length t + fuel)%nat.
Proof.
  intros Hall. induction fuel as [|fuel IH]; intros marker acc t.
  - cbn. split; [reflexivity | lia].
  - destruct (Hall t (command bucket marker)) as (out & Hs & Hm).
    rewrite fetchBucketObjects_some.
    rewrite (fetchBucketObjects_answered _ _ _ _ _ _ _ Hs), Hm.
    match goal with
    | |- context [fetchBucketObjects fuel s3 bucket ?m ?a ?u] =>
        destruct (IH m a u) as [HP HL]
    end.
    split; [exact HP | rewrite HL, length_app; cbn; lia].
Qed.

Lemma fetchBucketObjects_prepend (fuel : nat) :
  forall marker pre acc t,
    fetchBucketObjects fuel s3 bucket marker (Some (pre ++ acc)) t =
    (fst (fetchBucketObjects fuel s3 bucket marker (Some acc) t),
     completion_map (app pre) (snd (fetchBucketObjects fuel s3 bucket marker (Some acc) t))).
Proof.
  induction fuel as [|fuel IH]; intros marker pre acc t; [reflexivity|].
  destruct (s3 t (command bucket marker)) as [e|out] eqn:Hs.
  - rewrite !(fetchBucketObjects_refused _ _ _ _ _ _ _ Hs). reflexivity.
  - rewrite !(fetchBucketObjects_answered _ _ _ _ _ _ _ Hs).
    rewrite <- app_assoc.
    destruct (truthy_string (NextMarker out)); [apply IH | reflexivity].
Qed.

(** X5. The accumulator is only ever extended: a run that starts from
    objects already gathered sends the same calls as a run that starts
    from none and, when fulfilled, returns those objects followed by the
    result of that run; it is rejected or left pending exactly when that
    run is. *)
Theorem fetchBucketObjects_accumulator (fuel : nat) (marker : option string)
    (acc : list _Object) (t : Trace) :
  fetchBucketObjects fuel s3 bucket marker (Some acc) t =
  (fst (fetchBucketObjects fuel s3 bucket marker None t),
   completion_map (app acc) (snd (fetchBucketObjects fuel s3 bucket marker None t))).
Proof.
  rewrite fetchBucketObjects_default, <- fetchBucketObjects_prepend, app_nil_r.
  reflexivity.
Qed.

(** X6. Against a service whose answers do not depend on the calls made
    before, listing again gives the same: a run that starts after any
    calls sends the calls of a first run and settles as it did. *)
Theorem fetchBucketObjects_again (fuel : nat) :
  (forall t1 t2 cmd, s3 t1 cmd = s3 t2 cmd) ->
  forall marker acc t,
    fetchBucketObjects fuel s3 bucket marker acc t =
    (t ++ fst (fetchBucketObjects fuel s3 bucket marker acc []),
     snd (fetchBucketObjects fuel s3 bucket marker acc [])).
Proof.
  intros Hstable. induction fuel as [|fuel IH]; intros marker acc t.
  - cbn. rewrite app_nil_r. reflexivity.
  - rewrite (fetchBucketObjects_some _ _ _ t), (fetchBucketObjects_some _ _ _ []).
    destruct (s3 [] (command bucket marker)) as [e|out] eqn:Hs0;
      pose proof Hs0 as Hs; rewrite (Hstable [] t) in Hs.
    + rewrite (fetchBucketObjects_refused _ _ _ _ _ _ _ Hs),
        (fetchBucketObjects_refused _ _ _ _ _ _ _ Hs0). reflexivity.
    + rewrite (fetchBucketObjects_answered _ _ _ _ _ _ _ Hs),
        (fetchBucketObjects_answered _ _ _ _ _ _ _ Hs0).
      destruct (truthy_string (NextMarker out)); [|reflexivity].
      rewrite (IH _ _ (t ++ [command bucket marker])).
      rewrite (IH _ _ ([] ++ [command bucket marker])).
      cbn [fst snd]. rewrite <- app_assoc. reflexivity.
Qed.

End ListingRuns.

Lemma sample_s3_stable (t1 t2 : Trace) (cmd : ListObjectsCommand) :
  sample_s3 t1 cmd = sample_s3 t2 cmd.
Proof. reflexivity. Qed.

Lemma fetchBucketObjects_fulfilled_only_served_witness :
  exists pages,
    serves sample_s3 "photos" [] None pages
    /\ [object_a; object_b; object_c] = List.concat (map page_objects pages)
    /\ calls "photos" [None; Some "b/c.bin"; Some "c"]
       = calls "photos" (None :: map NextMarker (removelast pages))
    /\ (List.length pages <= 5)%nat.
Proof.
  apply (fetchBucketObjects_fulfilled_only_served sample_s3 "photos" 5
           (calls "photos" [None; Some "b/c.bin"; Some "c"])
           [object_a; object_b; object_c]).
  reflexivity.
Defined.

Lemma fetchBucketObjects_rejected_only_by_service_witness :
  exists pages,
    fails_after failing_s3 "photos" [] None pages access_denied
    /\ calls "photos" [None; Some "b/c.bin"; Some "c"]
       = calls "photos" (None :: map NextMarker pages).
Proof.
  apply (fetchBucketObjects_rejected_only_by_service failing_s3 "photos" 5
           (calls "photos" [None; Some "b/c.bin"; Some "c"]) access_denied).
  reflexivity.
Defined.

Lemma fetchBucketObjects_fuel_monotone_witness :
  fetchBucketObjects (3 + 4) sample_s3 "photos" None None [] =
  fetchBucketObjects 3 sample_s3 "photos" None None [].
Proof.
  apply (fetchBucketObjects_fuel_monotone sample_s3 "photos" 3 4 None None []).
  cbn. discriminate.
Defined.

Lemma fetchBucketObjects_endless_witness :
  snd (fetchBucketObjects 6 endless_s3 "photos" None None []) = Pending
  /\ List.length (fst (fetchBucketObjects 6 endless_s3 "photos" None None []))
     = (0 + 6)%nat.
Proof.
  apply (fetchBucketObjects_endless endless_s3 "photos" 6).
  intros t cmd. exists {| Contents := Some [object_a]; NextMarker := Some "again" |}.
  split; reflexivity.
Defined.

Lemma fetchBucketObjects_again_witness :
  fetchBucketObjects 3 sample_s3 "photos" None None (calls "photos" [None]) =
  (calls "photos" [None] ++ fst (fetchBucketObjects 3 sample_s3 "photos" None None []),
   snd (fetchBucketObjects 3 sample_s3 "photos" None None [])).
Proof.
  apply (fetchBucketObjects_again sample_s3 "photos" 3 sample_s3_stable).
Defined.

(* ===================================================================== *)
(** * The size formatter: what the loop computes                          *)
(* ===================================================================== *)

Lemma divisions_succ (n : nat) (bytes : number) :
  divisions (S n) bytes = divisions n (div bytes threshold).
Proof.
  unfold divisions. set (f := fun b => div b threshold).
  change (div bytes threshold) with (f bytes).
  induction n as [|n IH]; [reflexivity|].
  change (f (Nat.iter (S n) f bytes) = f (Nat.iter n f (f bytes))).
  rewrite IH. reflexivity.
Qed.

(** The loop from any state: where it stops, what it leaves, and why it
    did not stop before. *)
Lemma do_while_spec (n : nat) :
  forall bytes u,
    (steps_left u <= n)%nat ->
    u < 7 ->
    let b := fst (do_while bytes u) in
    let u' := snd (do_while bytes u) in
    u < u' <= 7
    /\ b = divisions (Z.to_nat (u' - u)) bytes
    /\ again b u' = false
    /\ (forall j, u < j < u' -> again (divisions (Z.to_nat (j - u)) bytes) j = true).
Proof.
  induction n as [|n IH]; intros bytes u Hn Hu; cbv zeta; rewrite do_while_step;
    destruct (again (div bytes threshold) (u + 1)) eqn:E; cbn [fst snd].
  - apply again_guard in E. unfold steps_left in Hn.
    change (Z.of_nat (List.length units)) with 8 in *. lia.
  - replace (u + 1 - u) with 1 by lia. repeat split; try lia; try exact E.
  - pose proof (again_guard _ _ E) as Hg.
    unfold steps_left in Hn. change (Z.of_nat (List.length units)) with 8 in *.
    destruct (IH (div bytes threshold) (u + 1)) as (Hr & Hb & He & Hj);
      [unfold steps_left; change (Z.of_nat (List.length units)) with 8; lia | lia |].
    split; [lia|]. split; [|split; [exact He|]].
    + rewrite Hb.
      replace (Z.to_nat (snd (do_while (div bytes threshold) (u + 1)) - u))
        with (S (Z.to_nat (snd (do_while (div bytes threshold) (u + 1)) - (u + 1))))
        by lia.
      rewrite divisions_succ. reflexivity.
    + intros j Hjr. destruct (Z.eq_dec j (u + 1)) as [-> | Hne].
      * replace (u + 1 - u) with 1 by lia. exact E.
      * replace (Z.to_nat (j - u)) with (S (Z.to_nat (j - (u + 1)))) by lia.
        rewrite divisions_succ. apply Hj. lia.
  - replace (u + 1 - u) with 1 by lia. repeat split; try lia; try exact E.
Qed.

(** X7. The number written goes with the unit written: with the unit of
    index u (kB is 0), it is the input divided u + 1 times by the
    threshold, each division rounded as binary64 division is. *)
Theorem humanFileSize_magnitude (bytes : number) :
  let u := snd (do_while bytes (-1)) in
  fst (do_while bytes (-1)) = divisions (Z.to_nat (u + 1)) bytes
  /\ humanFileSize bytes =
     (if lt (Math_abs bytes) threshold
      then Number_toString bytes +++ " B"
      else toFixed (divisions (Z.to_nat (u + 1)) bytes) +++ " " +++ index units u).
Proof.
  intros u. subst u.
  destruct (do_while_spec (steps_left (-1)) bytes (-1)) as (_ & Hb & _); [lia | lia |].
  replace (snd (do_while bytes (-1)) - -1) with (snd (do_while bytes (-1)) + 1) in Hb by lia.
  split; [exact Hb|].
  unfold humanFileSize. rewrite <- Hb.
  destruct (do_while bytes (-1)) as [b v]. reflexivity.
Qed.


(** X9. The numbers that are not finite: NaN is never found at or above
    the threshold, so it stays at the first unit; the infinities stay
    infinite under division and reach the last one. *)
Theorem humanFileSize_not_finite :
  humanFileSize S754_nan = "NaN kB"
  /\ humanFileSize (S754_infinity false) = "Infinity YB"
  /\ humanFileSize (S754_infinity true) = "-Infinity YB".
Proof. vm_compute. repeat split; reflexivity. Qed.

(* ===================================================================== *)
(** * The views and the listings together                                 *)
(* ===================================================================== *)

Lemma S3BucketObjects_items (AWS_REGION : option string) (bucket : Bucket)
    (objects : list _Object) (loading : bool) :
  exists items,
    list_children
      (S3BucketObjects AWS_REGION bucket
         {| data := Some objects; error := None; isLoading := loading |})
    = Child_Items items
    /\ map item_title items = map (fun o => or_empty (Key o)) objects
    /\ map item_key items = map (fun o => or_empty (Key o)) objects
    /\ map item_accessories items
       = map (fun o => [humanFileSize (or_zero (Size o))]) objects.
Proof.
  eexists. split; [reflexivity|]. rewrite !map_map. repeat split.
Qed.

(** X10. A fulfilled listing, handed to the view without error, is shown
    whole and in order: one item per object of the pages, page after page,
    each titled with the key of its object and carrying its formatted
    size. *)
Theorem S3BucketObjects_shows_all_pages
    (s3 : S3Client) (AWS_REGION : option string) (bucket : Bucket)
    (pages : list ListObjectsOutput) (extra : nat) (loading : bool) :
  serves s3 (or_empty (Name bucket)) [] None pages ->
  let run := fetchBucketObjects (List.length pages + extra) s3
               (or_empty (Name bucket)) None None [] in
  exists items,
    list_children
      (S3BucketObjects AWS_REGION bucket
         {| data := returned (snd run); error := None; isLoading := loading |})
    = Child_Items items
    /\ map item_title items
       = map (fun o => or_empty (Key o)) (List.concat (map page_objects pages))
    /\ map item_accessories items
       = map (fun o => [humanFileSize (or_zero (Size o))])
           (List.concat (map page_objects pages))
    /\ List.length items
       = list_sum (map (fun p => List.length (page_objects p)) pages).
Proof.
  intros Hp run. subst run.
  rewrite fetchBucketObjects_default.
  rewrite (fetchBucketObjects_serves s3 _ pages extra None [] [] Hp).
  cbn [snd returned app]. rewrite flat_map_concat_map.
  destruct (S3BucketObjects_items AWS_REGION bucket
              (List.concat (map page_objects pages)) loading)
    as (items & Hc & Ht & _ & Ha).
  exists items. split; [exact Hc|]. split; [exact Ht|]. split; [exact Ha|].
  rewrite <- (length_map item_title), Ht, length_map.
  rewrite <- flat_map_concat_map. apply length_flat_map_pages.
Qed.

Lemma S3BucketObjects_shows_all_pages_witness :
  exists items,
    list_children
      (S3BucketObjects (Some "eu-west-1") sample_bucket
         {| data := returned (snd (fetchBucketObjects (3 + 0) sample_s3 "photos" None None []));
            error := None; isLoading := false |})
    = Child_Items items
    /\ map item_title items = ["a.txt"; "b/c.bin"; "d"]
    /\ map item_accessories items = [["12 B"]; ["2 MB"]; ["0 B"]]
    /\ List.length items = 3%nat.
Proof.
  apply (S3BucketObjects_shows_all_pages sample_s3 (Some "eu-west-1") sample_bucket
           sample_pages 0 false).
  cbn. repeat split; reflexivity.
Defined.

(** X11. An object whose size is missing, zero or NaN is shown as "0 B":
    when no object of the list has a size, every item carries that
    text. *)
Theorem S3BucketObjects_no_size
    (AWS_REGION : option string) (bucket : Bucket)
    (objects : list _Object) (loading : bool) :
  Forall (fun o => no_size (Size o)) objects ->
  exists items,
    list_children
      (S3BucketObjects AWS_REGION bucket
         {| data := Some objects; error := None; isLoading := loading |})
    = Child_Items items
    /\ List.length items = List.length objects
    /\ Forall (fun i => item_accessories i = ["0 B"]) items.
Proof.
  intros Hall. eexists. split; [reflexivity|]. split; [apply length_map|].
  apply Forall_map. apply (Forall_impl _ (P := fun o => no_size (Size o))); [|exact Hall].
  intros o Ho. cbn [item_accessories].
  destruct (Size o) as [[s|s| |s m e]|]; cbn in Ho; try contradiction; reflexivity.
Qed.

Lemma S3BucketObjects_no_size_witness :
  exists items,
    list_children
      (S3BucketObjects None sample_bucket
         {| data := Some [object_c; {| Key := None; Size := Some S754_nan |}];
            error := None; isLoading := true |})
    = Child_Items items
    /\ List.length items = 2%nat
    /\ Forall (fun i => item_accessories i = ["0 B"]) items.
Proof.
  apply (S3BucketObjects_no_size None sample_bucket
           [object_c; {| Key := None; Size := Some S754_nan |}] true).
  repeat constructor.
Defined.

(** X12. The wrong-region view offers the link that the bucket's own item
    offers: its only action opens in the browser the address that is the
    Open in Browser action of [S3Bucket] for the same bucket. *)
Theorem wrong_region_link_is_bucket_link
    (AWS_REGION : option string) (bucket : Bucket)
    (objects : option (list _Object)) (loading : bool) (e : JsError) :
  isPermanentRedirectError (Some e) = true ->
  exists v url,
    list_children
      (S3BucketObjects AWS_REGION bucket
         {| data := objects; error := Some e; isLoading := loading |})
    = Child_EmptyView v
    /\ ev_actions v = [Action_OpenInBrowser "Open in Browser" url]
    /\ In (BucketAction_OpenInBrowser "Open in Browser" url)
         (bitem_actions (S3Bucket bucket)).
Proof.
  intros He. unfold S3BucketObjects. cbn [data error isLoading list_children].
  rewrite He. eexists. eexists. split; [reflexivity|]. split; [reflexivity|].
  cbn. tauto.
Qed.

Lemma wrong_region_link_is_bucket_link_witness :
  exists v url,
    list_children
      (S3BucketObjects None sample_bucket
         {| data := None;
            error := Some {| err_isS3ServiceException := true;
                             err_name := "PermanentRedirect";
                             err_message := "";
                             err_Code := Some "PermanentRedirect";
                             err_Bucket := Some "photos";
                             err_Endpoint := None |};
            isLoading := false |})
    = Child_EmptyView v
    /\ ev_actions v = [Action_OpenInBrowser "Open in Browser" url]
    /\ In (BucketAction_OpenInBrowser "Open in Browser" url)
         (bitem_actions (S3Bucket sample_bucket)).
Proof.
  apply (wrong_region_link_is_bucket_link None sample_bucket None false). reflexivity.
Defined.

(** X13. The bucket list shows what [fetchBuckets] got: when the call is
    answered, one item per bucket in the order of the answer, titled with
    the name of its bucket (empty when it has none) and pushing the object
    view of that very bucket; nothing when the answer has no [Buckets]. *)
Theorem S3_shows_buckets (out : ListBucketsOutput) (loading : bool) :
  fetchBuckets (inr out) = Fulfilled (Buckets out)
  /\ match Buckets out with
     | Some buckets =>
         exists items,
           blist_children
             (S3 {| buckets_data := Buckets out; buckets_error := None;
                    buckets_isLoading := loading |})
           = Buckets_Items items
           /\ map (fun i => bitem_title (snd i)) items
              = map (fun b => or_empty (Name b)) buckets
           /\ map (fun i => hd_error (bitem_actions (snd i))) items
              = map (fun b => Some (BucketAction_Push b "List Objects")) buckets
           /\ map fst items = map Name buckets
     | None =>
         blist_children
           (S3 {| buckets_data := Buckets out; buckets_error := None;
                  buckets_isLoading := loading |})
         = Buckets_undefined
     end.
Proof.
  split; [reflexivity|]. unfold S3. cbn [buckets_data buckets_error blist_children].
  destruct (Buckets out) as [buckets|]; [|reflexivity].
  eexists. split; [reflexivity|]. rewrite !map_map. repeat split.
Qed.

(** In the bucket list every error is shown alike, the permanent redirect
    too: a rejected [fetchBuckets] carries the error of the service, and
    the view shows its name and its message and no bucket, whatever data
    the hook still holds. *)
Lemma S3_shows_error (e : JsError) (buckets : option (list Bucket)) (loading : bool) :
  fetchBuckets (inl e) = Rejected e
  /\ blist_children
       (S3 {| buckets_data := buckets; buckets_error := Some e;
              buckets_isLoading := loading |})
     = Buckets_EmptyView
         {| ev_title := err_name e;
            ev_description := err_message e;
            ev_icon := Icon_Warning;
            ev_actions := [] |}.
Proof. split; reflexivity. Qed.

(* ===================================================================== *)
(** * The download                                                        *)
(* ===================================================================== *)

Lemma split_nonempty (sep : ascii) (s : string) : split sep s <> [].
Proof.
  destruct s as [|c s']; cbn; [discriminate|].
  destruct (Ascii.eqb c sep); [discriminate|].
  destruct (split sep s'); discriminate.
Qed.

Lemma split_no_separator (s : string) :
  has_slash s = false -> split slash s = [s].
Proof.
  induction s as [|c s' IH]; cbn; [reflexivity|].
  intros H. apply orb_false_iff in H. destruct H as [Hc Hs].
  rewrite Hc, (IH Hs). reflexivity.
Qed.

Lemma split_at_separator (p q : string) :
  split slash (p +++ String slash q) = split slash p ++ split slash q.
Proof.
  induction p as [|c p' IH]; cbn [append split app].
  - rewrite Ascii.eqb_refl. reflexivity.
  - rewrite IH. destruct (Ascii.eqb c slash); [reflexivity|].
    destruct (split slash p') as [|h t] eqn:E; [|reflexivity].
    exfalso. exact (split_nonempty _ _ E).
Qed.

Lemma pop_app (a b : list string) : b <> [] -> pop (a ++ b) = pop b.
Proof.
  intros Hb. induction a as [|x a' IH]; [reflexivity|].
  cbn [app]. destruct (a' ++ b) as [|y l] eqn:E.
  - apply app_eq_nil in E. destruct E. contradiction.
  - exact IH.
Qed.

Lemma has_slash_split (s : string) :
  has_slash s = false \/
  exists p q, s = p +++ String slash q /\ has_slash q = false.
Proof.
  induction s as [|c s' IH]; [left; reflexivity|].
  destruct IH as [Hs | (p & q & -> & Hq)].
  - cbn [has_slash]. destruct (Ascii.eqb c slash) eqn:Ec.
    + right. apply Ascii.eqb_eq in Ec. subst c. exists "", s'. split; [reflexivity | exact Hs].
    + left. rewrite Hs. reflexivity.
  - right. exists (String c p), q. split; [reflexivity | exact Hq].
Qed.

(** X14. Splitting a key at the slashes loses nothing and leaves no slash:
    the parts joined by slashes are the key again, there is always at
    least one part, and no part holds a slash. *)
Theorem split_join (key : string) :
  String.concat "/" (split slash key) = key
  /\ split slash key <> []
  /\ Forall (fun part => has_slash part = false) (split slash key).
Proof.
  split; [|split; [apply split_nonempty|]].
  - induction key as [|c s' IH]; [reflexivity|]. cbn [split].
    pose proof (split_nonempty slash s') as Hne.
    destruct (Ascii.eqb c slash) eqn:Ec.
    + apply Ascii.eqb_eq in Ec. subst c.
      destruct (split slash s') as [|h t]; [congruence|].
      change (String.concat "/" ("" :: h :: t))
        with ("" +++ "/" +++ String.concat "/" (h :: t)).
      rewrite IH. reflexivity.
    + destruct (split slash s') as [|h [|h' t]]; [congruence| |].
      * cbn in *. rewrite IH. reflexivity.
      * change (String.concat "/" (String c h :: h' :: t))
          with (String c (h +++ "/" +++ String.concat "/" (h' :: t))).
        change (String.concat "/" (h :: h' :: t))
          with (h +++ "/" +++ String.concat "/" (h' :: t)) in IH.
        rewrite IH. reflexivity.
  - induction key as [|c s' IH]; [repeat constructor|]. cbn [split].
    destruct (Ascii.eqb c slash) eqn:Ec; [constructor; [reflexivity | exact IH]|].
    destruct (split slash s') as [|h t]; [repeat constructor; cbn; rewrite Ec; reflexivity|].
    inversion IH as [|? ? Hh Ht]; subst.
    constructor; [cbn; rewrite Ec, Hh; reflexivity | exact Ht].
Qed.

(** X15. The file is named by what follows the last slash of the key: a
    key without slash names the file itself, and of a key [p/q] with no
    slash in [q] the name is [q], which is empty for a key that ends with
    a slash.  Every key is of one of these two kinds, so the name never
    holds a slash; an object without key is named "undefined". *)
Theorem file_name_after_last_slash :
  (forall size key, has_slash key = false ->
     file_name {| Key := Some key; Size := size |} = Some key)
  /\ (forall size p q, has_slash q = false ->
        file_name {| Key := Some (p +++ String slash q); Size := size |} = Some q)
  /\ (forall object key, Key object = Some key ->
        exists name, file_name object = Some name /\ has_slash name = false)
  /\ (forall object, Key object = None ->
        interpolate (file_name object) = "undefined").
Proof.
  assert (forall size key, has_slash key = false ->
            file_name {| Key := Some key; Size := size |} = Some key) as H1.
  { intros size key Hk. unfold file_name. cbn [Key].
    rewrite (split_no_separator _ Hk). reflexivity. }
  assert (forall size p q, has_slash q = false ->
            file_name {| Key := Some (p +++ String slash q); Size := size |} = Some q) as H2.
  { intros size p q Hq. unfold file_name. cbn [Key].
    rewrite split_at_separator, pop_app by apply split_nonempty.
    rewrite (split_no_separator _ Hq). reflexivity. }
  split; [exact H1|]. split; [exact H2|]. split.
  - intros [k sz] key Hk. cbn [Key] in Hk. subst k.
    destruct (has_slash_split key) as [Hs | (p & q & -> & Hq)].
    + exists key. split; [apply H1; exact Hs | exact Hs].
    + exists q. split; [apply H2; exact Hq | exact Hq].
  - intros object Hk. unfold file_name. rewrite Hk. reflexivity.
Qed.

(** X16. Once its toast is shown the download handler never fails: it is
    fulfilled after exactly one call, for the name of the bucket and the
    key of the object (empty when missing).  It ends with the success
    toast and one stream piped, into the Downloads folder of the home
    directory under the file name of the key, exactly when the service
    answered with a readable body; in every other case (an error of the
    service, whichever, no body, a body of another kind) it ends with the
    same failure toast and nothing piped. *)
Theorem onSubmit_outcome
    (getObject : GetObjectCommand -> JsError + GetObjectOutput)
    (homedir : string) (bucket : Bucket) (object : _Object) :
  let cmd := {| get_Bucket := or_empty (Name bucket); get_Key := or_empty (Key object) |} in
  let run := onSubmit (fun _ => None) getObject homedir bucket object in
  dl_settled run = Fulfilled tt
  /\ dl_sent run = [cmd]
  /\ ((exists body,
         getObject cmd = inr {| Body := Some body |}
         /\ body_isReadable body = true
         /\ dl_toast run = Some {| toast_style := Toast_Success;
                                   toast_title := "Downloaded to Downloads folder" |}
         /\ dl_piped run =
            [(homedir +++ "/Downloads/" +++ interpolate (file_name object), body)])
      \/
      ((forall body, getObject cmd = inr {| Body := Some body |} ->
          body_isReadable body = false)
       /\ dl_toast run = Some {| toast_style := Toast_Failure;
                                 toast_title := "Failed to download" |}
       /\ dl_piped run = [])).
Proof.
  intros cmd run. subst run. unfold onSubmit. fold cmd.
  destruct (getObject cmd) as [e|[[body|]]] eqn:Hg; cbn [Body].
  - repeat split; try reflexivity. right. repeat split. intros body Hb. discriminate Hb.
  - destruct (body_isReadable body) eqn:Hr.
    + repeat split; try reflexivity. left. exists body. repeat split; assumption.
    + repeat split; try reflexivity. right. repeat split.
      intros body' Hb. injection Hb as <-. exact Hr.
  - repeat split; try reflexivity. right. repeat split. intros body Hb. discriminate Hb.
Qed.

(** X17. When the host refuses to show the toast the handler is rejected
    with the error of the host, before anything is asked of the service:
    no call is sent and nothing is piped. *)
Theorem onSubmit_toast_refused
    (showToast : Toast -> option JsError)
    (getObject : GetObjectCommand -> JsError + GetObjectOutput)
    (homedir : string) (bucket : Bucket) (object : _Object) (e : JsError) :
  showToast {| toast_style := Toast_Animated; toast_title := "Downloading..." |} = Some e ->
  onSubmit showToast getObject homedir bucket object =
  {| dl_settled := Rejected e; dl_toast := None; dl_sent := []; dl_piped := [] |}.
Proof. intros Hs. unfold onSubmit. rewrite Hs. reflexivity. Qed.

Lemma onSubmit_toast_refused_witness :
  onSubmit (fun _ => Some access_denied) (fun _ => inr {| Body := Some sample_body |})
    "/home/u" sample_bucket object_b =
  {| dl_settled := Rejected access_denied; dl_toast := None; dl_sent := []; dl_piped := [] |}.
Proof.
  apply (onSubmit_toast_refused (fun _ => Some access_denied)
           (fun _ => inr {| Body := Some sample_body |}) "/home/u" sample_bucket object_b
           access_denied).
  reflexivity.
Defined.

(** X18. A download lands in the Downloads folder itself: for an object
    with a key, when the service answers with a readable body, the one
    stream piped goes to the home directory, "/Downloads/" and a name
    without slash, which is the end of the key. *)
Theorem onSubmit_path
    (getObject : GetObjectCommand -> JsError + GetObjectOutput)
    (homedir : string) (bucket : Bucket) (object : _Object) (key : string)
    (body : BodyStream) :
  Key object = Some key ->
  getObject {| get_Bucket := or_empty (Name bucket); get_Key := or_empty (Key object) |}
    = inr {| Body := Some body |} ->
  body_isReadable body = true ->
  exists dir name,
    dl_piped (onSubmit (fun _ => None) getObject homedir bucket object)
    = [(homedir +++ "/Downloads/" +++ name, body)]
    /\ has_slash name = false
    /\ key = dir +++ name
    /\ (dir = "" \/ exists p, dir = p +++ "/").
Proof.
  intros Hk Hg Hr. unfold onSubmit. rewrite Hg. cbn [Body]. rewrite Hr. cbn [dl_piped].
  destruct object as [k sz]. cbn [Key] in Hk. subst k.
  destruct (has_slash_split key) as [Hs | (p & q & -> & Hq)].
  - exists "", key. unfold file_name. cbn [Key].
    rewrite (split_no_separator _ Hs). cbn [pop interpolate].
    repeat split; auto.
  - exists (p +++ "/"), q. unfold file_name. cbn [Key].
    rewrite split_at_separator, pop_app by apply split_nonempty.
    rewrite (split_no_separator _ Hq). cbn [pop interpolate].
    split; [reflexivity|]. split; [exact Hq|]. split.
    + clear. induction p as [|c p IH]; [reflexivity|]. cbn. rewrite <- IH. reflexivity.
    + right. exists p. reflexivity.
Qed.

Lemma onSubmit_path_witness :
  exists dir name,
    dl_piped (onSubmit (fun _ => None) (fun _ => inr {| Body := Some sample_body |})
                "/home/u" sample_bucket object_b)
    = [("/home/u" +++ "/Downloads/" +++ name, sample_body)]
    /\ has_slash name = false
    /\ "b/c.bin" = dir +++ name
    /\ (dir = "" \/ exists p, dir = p +++ "/").
Proof.
  apply (onSubmit_path (fun _ => inr {| Body := Some sample_body |})
           "/home/u" sample_bucket object_b "b/c.bin" sample_body); reflexivity.
Defined.
